(** * Secure upload backend (FastAPI): credentials, tokens and the per-user
      file namespace

    A shallow embedding of [secure_upload_backend/main.py].

    - The module-level dictionary [fake_users_db] is a finite map from
      user names to stored records; the handlers that mutate it take the
      map and return the new one.
    - [datetime.utcnow()] is an explicit argument [now]; instants and
      durations are whole seconds (the resolution of a JWT [exp] claim).
    - The salt drawn by [pwd_context.hash] is an explicit argument.
    - A string is the UTF-8 encoding of the Python string: the file
      system sees its bytes, [len] counts its code points.
    - The upload directory lives in a small POSIX file-system model: a
      finite map from absolute component paths to inodes.
    - passlib's [CryptContext] and jose's [jwt] are libraries outside the
      repository: the handlers are parameterised by their operations and
      the theorems name the part of their contract they rely on. *)

From stdpp Require Import gmap strings list fin_maps.
From Stdlib Require Import Ascii ZArith Lia.

Open Scope Z_scope.

(** ** Exceptions and results *)

(** [fastapi.HTTPException(status_code, detail, headers)]. *)
Record HTTPException := mkHTTPException {
  status_code : Z;
  detail : string;
  headers : option (list (string * string))
}.

(** The failures [jwt.decode] reports; all are subclasses of [JWTError]. *)
Inductive JWTError :=
  | InvalidSignature
  | ExpiredSignature
  | Malformed
  | InvalidClaims.

(** What a handler can raise: an [HTTPException], which FastAPI turns
    into the response it describes, or an exception that no handler
    catches: the [OSError] of a failed system call ([FileNotFoundError],
    [NotADirectoryError], [IsADirectoryError], a name that is too long),
    passlib's [PasswordSizeError] for a secret that is too long, and the
    [ValueError] of [open] for a path with a NUL byte. *)
Inductive exn :=
  | HTTPExc (e : HTTPException)
  | OSError
  | PasswordSizeError
  | ValueError.

(** A call either returns a value or raises. *)
Inductive result (A : Type) :=
  | Return (a : A)
  | Raise (e : exn).
Arguments Return {A} a.
Arguments Raise {A} e.

#[global] Instance result_ret : MRet result := fun A a => Return a.
#[global] Instance result_bind : MBind result := fun A B k r =>
  match r with
  | Return a => k a
  | Raise e => Raise e
  end.

Definition HTTP_401_UNAUTHORIZED : Z := 401.

(** ** Configuration *)

Definition ALGORITHM : string := "HS256".
Definition ACCESS_TOKEN_EXPIRE_MINUTES : Z := 30.

(** [timedelta(minutes=m)], in seconds. *)
Definition timedelta_minutes (m : Z) : Z := m * 60.

(** ** Data model *)

(** The value stored under a user name in [fake_users_db]:
    [{'username': ..., 'hashed_password': ...}]. *)
Record user := mkUser {
  user_username : string;
  hashed_password : string
}.

(** Request body of [/register]. *)
Record UserCreate := mkUserCreate {
  username : string;
  password : string
}.

(** Response body of [/token]. *)
Record Token := mkToken {
  access_token : string;
  token_type : string
}.

(** A value of a JWT claim. *)
Inductive claim :=
  | CStr (s : string)
  | CNum (z : Z)
  | CNull.

Abbreviation users_db := (gmap string user).
Abbreviation claims := (gmap string claim).

#[global] Instance HTTPException_eq_dec : EqDecision HTTPException.
Proof. solve_decision. Defined.
#[global] Instance user_eq_dec : EqDecision user.
Proof. solve_decision. Defined.
#[global] Instance claim_eq_dec : EqDecision claim.
Proof. solve_decision. Defined.

(** ** The length of a Python string *)

(** The bytes [10xxxxxx], which continue a code point. *)
Definition is_continuation (c : ascii) : bool :=
  match c with
  | Ascii _ _ _ _ _ _ b6 b7 => b7 && negb b6
  end.

(** [len(s)]: the code points of the string that [s] encodes. *)
Fixpoint py_len (s : string) : nat :=
  match s with
  | EmptyString => 0
  | String c s' => ((if is_continuation c then 0 else 1) + py_len s')%nat
  end.

(** [passlib.exc.MAX_PASSWORD_SIZE]: [hash] and [verify] refuse a longer
    secret. *)
Definition MAX_PASSWORD_SIZE : Z := 4096.

(** ** The environment of the authentication handlers *)

(** What [main.py] takes from outside the repository. *)
Class AuthEnv := {
  (** [SECRET_KEY]: read from the environment or drawn at start-up. *)
  SECRET_KEY : string;
  (** The digest of [pwd_context.hash], with the salt it draws made
      explicit, and the comparison of [pwd_context.verify], for a secret
      that passlib accepts. *)
  pwd_context_hash : string -> string -> string;
  pwd_context_verify : string -> string -> bool;
  (** [jwt.encode(claims, key, algorithm)] and
      [jwt.decode(token, key, algorithms)] at the instant [now]. *)
  jwt_encode : claims -> string -> string -> string;
  jwt_decode : string -> string -> list string -> Z -> JWTError + claims
}.

(** ** The authentication handlers *)

Section Auth.

Context `{AuthEnv}.

(** [pwd_context.verify] checks the size of the secret first. *)
Definition verify_password (plain_password hashed : string) : result bool :=
  if bool_decide (MAX_PASSWORD_SIZE < Z.of_nat (py_len plain_password))
  then Raise PasswordSizeError
  else Return (pwd_context_verify plain_password hashed).

(** [pwd_context.hash] checks the size of the secret first. *)
Definition get_password_hash (salt password : string) : result string :=
  if bool_decide (MAX_PASSWORD_SIZE < Z.of_nat (py_len password))
  then Raise PasswordSizeError
  else Return (pwd_context_hash salt password).

(** [if expires_delta:] is false for [None] and for [timedelta(0)]. *)
Definition create_access_token (data : claims) (expires_delta : option Z)
    (now : Z) : string :=
  let to_encode := data in
  let expire :=
    match expires_delta with
    | Some d =>
        if bool_decide (d = 0)
        then now + timedelta_minutes ACCESS_TOKEN_EXPIRE_MINUTES
        else now + d
    | None => now + timedelta_minutes ACCESS_TOKEN_EXPIRE_MINUTES
    end in
  let to_encode := <["exp" := CNum expire]> to_encode in
  jwt_encode to_encode SECRET_KEY ALGORITHM.

Definition credentials_exception : HTTPException :=
  mkHTTPException HTTP_401_UNAUTHORIZED "Could not validate credentials"
    (Some [("WWW-Authenticate", "Bearer")]).

(** [payload.get('sub')] is [None] for a missing and for a null claim;
    a subject that is not a string is no key of [fake_users_db]. *)
Definition get_current_user (fake_users_db : users_db) (token : string)
    (now : Z) : result user :=
  match jwt_decode token SECRET_KEY [ALGORITHM] now with
  | inl _ => Raise (HTTPExc credentials_exception)
  | inr payload =>
      match payload !! "sub" with
      | None | Some CNull => Raise (HTTPExc credentials_exception)
      | Some (CNum _) => Raise (HTTPExc credentials_exception)
      | Some (CStr username) =>
          match fake_users_db !! username with
          | None => Raise (HTTPExc credentials_exception)
          | Some user => Return user
          end
      end
  end.

Definition register (fake_users_db : users_db) (salt : string)
    (user : UserCreate) : result string * users_db :=
  if bool_decide (is_Some (fake_users_db !! username user)) then
    (Raise (HTTPExc (mkHTTPException 400 "Username already registered" None)),
     fake_users_db)
  else
    match get_password_hash salt (password user) with
    | Raise e => (Raise e, fake_users_db)
    | Return hashed =>
        (Return "User registered successfully",
         <[username user := mkUser (username user) hashed]> fake_users_db)
    end.

(** The one exception [login] raises, for [not user] and for
    [not verify_password(...)] alike. *)
Definition login_exception : HTTPException :=
  mkHTTPException HTTP_401_UNAUTHORIZED "Incorrect username or password"
    (Some [("WWW-Authenticate", "Bearer")]).

(** [not user] holds for [None] only: a stored record is never an empty
    dictionary. [or] evaluates [verify_password] for a stored user only,
    and what it raises leaves the handler. *)
Definition login (fake_users_db : users_db) (form_username form_password : string)
    (now : Z) : result Token :=
  match fake_users_db !! form_username with
  | None => Raise (HTTPExc login_exception)
  | Some user =>
      verified ← verify_password form_password (hashed_password user);
      if negb verified then
        Raise (HTTPExc login_exception)
      else
        let access_token :=
          create_access_token {["sub" := CStr (user_username user)]} None now in
        Return (mkToken access_token "bearer")
  end.

(** *** Names for the statements *)

(** What [register] raises and what it returns. *)
Definition username_taken : HTTPException :=
  mkHTTPException 400 "Username already registered" None.

Definition registered : string := "User registered successfully".

(** The expiry [create_access_token] writes into the token, in seconds. *)
Definition expiry_of (expires_delta : option Z) (now : Z) : Z :=
  match expires_delta with
  | Some d => if bool_decide (d = 0) then now + 1800 else now + d
  | None => now + 1800
  end.

(** *** The library contracts the theorems rely on *)

(** Modelled from the spec: passlib's [CryptContext] is not in the
    repository. A hash verifies against the secret it was made from, for
    a secret of a size that passlib accepts. *)
Definition hash_verifies : Prop :=
  forall salt secret,
    Z.of_nat (py_len secret) <= MAX_PASSWORD_SIZE ->
    pwd_context_verify secret (pwd_context_hash salt secret) = true.

(** Modelled from the spec: jose's [jwt.encode] and [jwt.decode] are not
    in the repository. As the token issuer is specified, a token decodes
    under the key that signed it to the claims it was made from as long
    as [now] is before its [exp], and is expired from [exp] on. *)
Definition jwt_round_trip : Prop :=
  forall (c : claims) key e now,
    c !! "exp" = Some (CNum e) ->
    jwt_decode (jwt_encode c key ALGORITHM) key [ALGORITHM] now =
      if bool_decide (now < e) then inr c else inl ExpiredSignature.

End Auth.

(** ** Strings and paths *)

(** [c in s]. *)
Fixpoint str_mem (c : ascii) (s : string) : bool :=
  match s with
  | EmptyString => false
  | String c' s' => Ascii.eqb c' c || str_mem c s'
  end.

(** [s.startswith(p)]. *)
Fixpoint str_startswith (p s : string) : bool :=
  match p, s with
  | EmptyString, _ => true
  | String _ _, EmptyString => false
  | String a p', String b s' => Ascii.eqb a b && str_startswith p' s'
  end.

(** [s[n:]]. *)
Fixpoint str_drop (n : nat) (s : string) : string :=
  match n, s with
  | O, _ => s
  | S n', String _ s' => str_drop n' s'
  | S _, EmptyString => EmptyString
  end.

(** [s.endswith(c)]. *)
Fixpoint str_endswith (c : ascii) (s : string) : bool :=
  match s with
  | EmptyString => false
  | String c' EmptyString => Ascii.eqb c' c
  | String _ s' => str_endswith c s'
  end.

(** [s.split('/')], as its first field and the remaining ones. *)
Fixpoint components (s : string) : string * list string :=
  match s with
  | EmptyString => (EmptyString, [])
  | String c s' =>
      let '(h, t) := components s' in
      if Ascii.eqb c "/" then (EmptyString, h :: t) else (String c h, t)
  end.

Definition split_slash (s : string) : list string :=
  let '(h, t) := components s in h :: t.

(** [posixpath.join(a, b)]. *)
Definition os_path_join (a b : string) : string :=
  if str_startswith "/" b then b
  else if bool_decide (a = "") || str_endswith "/" a then a +:+ b
  else a +:+ "/" +:+ b.

(** A list without its last element, and that element. *)
Fixpoint split_last {A} (l : list A) : option (list A * A) :=
  match l with
  | [] => None
  | x :: l' =>
      match split_last l' with
      | None => Some ([], x)
      | Some (i, y) => Some (x :: i, y)
      end
  end.

(** ** The file system *)

Inductive inode :=
  | IFile (data : list Byte.byte)
  | IDir.

(** A path from the root, one name per directory level; the root is []
    and is always a directory. *)
Abbreviation path := (list string).
Abbreviation filesystem := (gmap (list string) inode).

Definition parent (p : path) : path :=
  match split_last p with
  | Some (d, _) => d
  | None => []
  end.

(** Path resolution through directories, one component at a time: an empty
    component and [.] stay, [..] goes up (the root is its own parent), a
    name must be an existing directory. Relative paths start at the root. *)
Fixpoint walk (fs : filesystem) (cwd : path) (cs : list string) : option path :=
  match cs with
  | [] => Some cwd
  | c :: cs' =>
      if bool_decide (c = "" \/ c = ".") then walk fs cwd cs'
      else if bool_decide (c = "..") then walk fs (parent cwd) cs'
      else
        match fs !! (cwd ++ [c]) with
        | Some IDir => walk fs (cwd ++ [c]) cs'
        | _ => None
        end
  end.

(** [os.stat(p)]: where [p] leads and what is there. *)
Definition fs_stat (fs : filesystem) (p : string) : option (path * inode) :=
  if bool_decide (p = "") then None
  else
    '(ds, n) ← split_last (split_slash p);
    d ← walk fs [] ds;
    if bool_decide (n = "" \/ n = ".") then Some (d, IDir)
    else if bool_decide (n = "..") then Some (parent d, IDir)
    else ino ← fs !! (d ++ [n]); Some (d ++ [n], ino).

Definition os_path_exists (fs : filesystem) (p : string) : bool :=
  bool_decide (is_Some (fs_stat fs p)).

(** The name of [k] when it lies directly in the directory [d]. *)
Definition child_name (d : path) (k : path) : option string :=
  match split_last k with
  | Some (d', n) => if bool_decide (d' = d) then Some n else None
  | None => None
  end.

(** [os.listdir(p)], in the order the map enumerates its keys. *)
Definition os_listdir (fs : filesystem) (p : string) : result (list string) :=
  match fs_stat fs p with
  | Some (d, IDir) => Return (omap (child_name d) (map_to_list fs).*1)
  | _ => Raise OSError
  end.

(** [st_size] of a directory. *)
Definition dir_st_size : Z := 4096.

(** [os.path.getsize(p)]. *)
Definition os_path_getsize (fs : filesystem) (p : string) : result Z :=
  match fs_stat fs p with
  | Some (_, IFile data) => Return (Z.of_nat (length data))
  | Some (_, IDir) => Return dir_st_size
  | None => Raise OSError
  end.

(** The NUL byte, and the limits of the system on the bytes of a file
    name and of a path (the latter counts the terminating NUL). *)
Definition NUL : ascii := "000"%char.
Definition NAME_MAX : Z := 255.
Definition PATH_MAX : Z := 4096.

(** The system call behind [open(p, 'wb+')], followed by writing [data]
    and closing: the file is created or truncated in an existing
    directory; a path that names a directory, that leads through
    something that is no directory, or whose last name is too long,
    fails. *)
Definition sys_open_write (fs : filesystem) (p : string) (data : list Byte.byte)
    : option filesystem :=
  '(ds, n) ← split_last (split_slash p);
  d ← walk fs [] ds;
  if bool_decide (n = "" \/ n = "." \/ n = "..") then None
  else if bool_decide (NAME_MAX < Z.of_nat (String.length n)) then None
  else
    match fs !! (d ++ [n]) with
    | Some IDir => None
    | _ => Some (<[d ++ [n] := IFile data]> fs)
    end.

(** [open(p, 'wb+')] and the copy: Python refuses a path with a NUL byte
    with [ValueError] before it calls the system, which refuses a path
    that is too long, and every failure of the system is an [OSError]. *)
Definition fs_write (fs : filesystem) (p : string) (data : list Byte.byte)
    : result filesystem :=
  if str_mem NUL p then Raise ValueError
  else if bool_decide (PATH_MAX <= Z.of_nat (String.length p)) then Raise OSError
  else
    match sys_open_write fs p data with
    | Some fs' => Return fs'
    | None => Raise OSError
    end.

(** ** The file handlers *)

(** [fastapi.UploadFile]: the name the client sent and the bytes. *)
Record UploadFile := mkUploadFile {
  filename : string;
  file : list Byte.byte
}.

(** Response body of [/upload]. *)
Record UploadInfo := mkUploadInfo {
  info : string;
  info_user : string
}.

(** An element of the ['files'] list of [/files]: ['name'] and ['size']. *)
Record FileEntry := mkFileEntry {
  entry_name : string;
  entry_size : Z
}.

#[global] Instance FileEntry_eq_dec : EqDecision FileEntry.
Proof. solve_decision. Defined.

Section Files.

(** [os.path.dirname(__file__)]. *)
Variable module_dir : string.

Definition UPLOAD_DIR : string := os_path_join module_dir "uploaded_files".

(** [os.path.join(UPLOAD_DIR, f"{username}_{filename}")]. *)
Definition file_location (username filename : string) : string :=
  os_path_join UPLOAD_DIR (username +:+ "_" +:+ filename).

Definition upload_file (fs : filesystem) (file_ : UploadFile) (current_user : user)
    : result UploadInfo * filesystem :=
  let file_location :=
    file_location (user_username current_user) (filename file_) in
  match fs_write fs file_location (file file_) with
  | Raise e => (Raise e, fs)
  | Return fs' =>
      (Return (mkUploadInfo ("File '" +:+ filename file_ +:+ "' saved.")
                 (user_username current_user)),
       fs')
  end.

(** The body of [for filename in os.listdir(UPLOAD_DIR)], with the list
    [files] built so far. The slice [filename[len(username)+1:]] is taken
    of a name that starts with [username_], so it drops the bytes of that
    prefix. *)
Fixpoint list_files_loop (fs : filesystem) (username : string)
    (names : list string) (files : list FileEntry) : result (list FileEntry) :=
  match names with
  | [] => Return files
  | filename :: names' =>
      if str_startswith (username +:+ "_") filename then
        let file_path := os_path_join UPLOAD_DIR filename in
        file_size ← os_path_getsize fs file_path;
        let original_name := str_drop (String.length username + 1) filename in
        list_files_loop fs username names'
          (files ++ [mkFileEntry original_name file_size])
      else list_files_loop fs username names' files
  end.

Definition list_files (fs : filesystem) (current_user : user)
    : result (list FileEntry) :=
  let username := user_username current_user in
  if os_path_exists fs UPLOAD_DIR then
    names ← os_listdir fs UPLOAD_DIR;
    list_files_loop fs username names []
  else Return [].

(** *** The per-user namespace *)

(** [os.path.normpath] on components: resolution by name alone. *)
Fixpoint normpath (stack : path) (cs : list string) : path :=
  match cs with
  | [] => stack
  | c :: cs' =>
      if bool_decide (c = "" \/ c = ".") then normpath stack cs'
      else if bool_decide (c = "..") then normpath (parent stack) cs'
      else normpath (stack ++ [c]) cs'
  end.

(** The namespace of [username]: the entries directly in [UPLOAD_DIR]
    whose name starts with [username_]. *)
Definition in_namespace (username : string) (p : path) : bool :=
  match split_last p with
  | Some (d, n) =>
      bool_decide (d = normpath [] (split_slash UPLOAD_DIR))
      && str_startswith (username +:+ "_") n
  | None => false
  end.

(** Where the upload of [logical_name] by [username] would resolve lies
    outside the namespace of [username]. *)
Definition resolves_outside (username logical_name : string) : bool :=
  negb (in_namespace username
          (normpath [] (split_slash (file_location username logical_name)))).

(** Whether the directory [d] holds a directory. *)
Definition has_subdir (fs : filesystem) (d : path) : bool :=
  existsb (fun kv => match kv with
                     | (k, IDir) => bool_decide (is_Some (child_name d k))
                     | _ => false
                     end)
          (map_to_list fs).

End Files.

(** ** Reference instances of the libraries

    A hasher and a token codec that satisfy the contracts, so that the
    theorems below can be run on concrete requests. The hash keeps the
    secret in the clear and the token carries its key: they stand for the
    libraries' input-output behaviour only. *)

Module Reference.

Definition hash (salt secret : string) : string :=
  secret +:+ "$" +:+ salt.

Definition verify (secret hashed : string) : bool :=
  str_startswith (secret +:+ "$") hashed.

Definition claim_to_sum (c : claim) : string + Z + unit :=
  match c with
  | CStr s => inl (inl s)
  | CNum z => inl (inr z)
  | CNull => inr ()
  end.

Definition claim_of_sum (x : string + Z + unit) : claim :=
  match x with
  | inl (inl s) => CStr s
  | inl (inr z) => CNum z
  | inr _ => CNull
  end.

#[global] Instance claim_countable : Countable claim.
Proof.
  apply (inj_countable' claim_to_sum claim_of_sum).
  by intros [].
Defined.

(** A positive number in binary, least significant digit first. *)
Fixpoint pos_to_string (p : positive) : string :=
  match p with
  | xH => ""
  | xO p' => String "0" (pos_to_string p')
  | xI p' => String "1" (pos_to_string p')
  end.

Fixpoint string_to_pos (s : string) : option positive :=
  match s with
  | EmptyString => Some xH
  | String c s' =>
      if Ascii.eqb c "0" then xO <$> string_to_pos s'
      else if Ascii.eqb c "1" then xI <$> string_to_pos s'
      else None
  end.

Definition encode_token (c : claims) (key algorithm : string) : string :=
  pos_to_string (encode (c, key, algorithm)).

Definition decode_token (token key : string) (algorithms : list string) (now : Z)
    : JWTError + claims :=
  match string_to_pos token ≫= decode with
  | None => inl Malformed
  | Some (c, key', algorithm) =>
      if negb (bool_decide (key' = key) && bool_decide (algorithm ∈ algorithms))
      then inl InvalidSignature
      else
        match c !! "exp" with
        | Some (CNum e) => if bool_decide (now < e) then inr c else inl ExpiredSignature
        | Some _ => inl InvalidClaims
        | None => inr c
        end
  end.

Definition env : AuthEnv := {|
  SECRET_KEY := "k3y";
  pwd_context_hash := hash;
  pwd_context_verify := verify;
  jwt_encode := encode_token;
  jwt_decode := decode_token
|}.

Definition module_dir : string := "/srv/secure_upload_backend".

(** [/srv/secure_upload_backend/uploaded_files], empty. *)
Definition fs0 : filesystem :=
  <[ ["srv"; "secure_upload_backend"; "uploaded_files"] := IDir ]>
    (<[ ["srv"; "secure_upload_backend"] := IDir ]>
       (<[ ["srv"] := IDir ]> ∅)).

Definition upload_dir_path : path := ["srv"; "secure_upload_backend"; "uploaded_files"].

(** The two bytes of [b'hi'] and the three of [b'bye']. *)
Definition hi : list Byte.byte := [Byte.x68; Byte.x69].
Definition bye : list Byte.byte := [Byte.x62; Byte.x79; Byte.x65].

(** A store with the one user bob. *)
Definition alice : user := mkUser "alice" (hash "s4lt" "pw123").
Definition bob : user := mkUser "bob" (hash "s4lt" "pw123").
Definition db_bob : users_db := {["bob" := bob]}.

End Reference.

(** ** The protected routes

    [current_user: dict = Depends(get_current_user)]: FastAPI runs the
    dependency on the bearer token of the request first and calls the
    handler with what it returns; when the dependency raises, the handler
    is not run. *)

Section Routes.

Context `{AuthEnv}.

Variable module_dir : string.

Definition upload_file_route (fake_users_db : users_db) (fs : filesystem)
    (token : string) (now : Z) (file_ : UploadFile)
    : result UploadInfo * filesystem :=
  match get_current_user fake_users_db token now with
  | Raise e => (Raise e, fs)
  | Return current_user => upload_file module_dir fs file_ current_user
  end.

Definition list_files_route (fake_users_db : users_db) (fs : filesystem)
    (token : string) (now : Z) : result (list FileEntry) :=
  current_user ← get_current_user fake_users_db token now;
  list_files module_dir fs current_user.

(** The store after a sequence of [/register] requests, each with the
    salt drawn for it. *)
Definition register_all (fake_users_db : users_db)
    (requests : list (string * UserCreate)) : users_db :=
  foldl (fun db req => (register db req.1 req.2).2) fake_users_db requests.

End Routes.

(** *** The expiry contract of the token codec *)

Section Contracts.

Context `{AuthEnv}.

(** Modelled from the spec: jose's [jwt.encode] and [jwt.decode] are not
    in the repository. The part of the token issuer's contract that the
    handlers use, without what happens at the instant [exp] itself: a
    token made under [SECRET_KEY] from a string subject and an expiry
    decodes under that key to these two claims before its [exp], and is
    expired after it. [jwt_round_trip] implies it. *)
Definition jwt_expiry : Prop :=
  forall sub e now,
    let c : claims := <["exp" := CNum e]> {["sub" := CStr sub]} in
    (now < e ->
       jwt_decode (jwt_encode c SECRET_KEY ALGORITHM) SECRET_KEY [ALGORITHM] now =
         inr c)
    /\ (e < now ->
          jwt_decode (jwt_encode c SECRET_KEY ALGORITHM) SECRET_KEY [ALGORITHM] now =
            inl ExpiredSignature).

End Contracts.

(** *** Names for the statements about stores and directories *)

(** Every record of the store lies under its own user name. *)
Definition store_consistent (db : users_db) : Prop :=
  forall k r, db !! k = Some r -> user_username r = k.

(** What a directory entry can be called: no slash, not empty, not [.]
    and not [..]. *)
Definition is_name (n : string) : bool :=
  negb (bool_decide (n = "" \/ n = "." \/ n = ".."))
  && negb (str_mem "/" n).

(** The entries of the directory [d] have such names. *)
Definition dir_names_ok (fs : filesystem) (d : path) : bool :=
  forallb (fun k => match child_name d k with
                    | Some n => is_name n
                    | None => true
                    end)
          (map_to_list fs).*1.

(** The state the upload directory is in after start-up and after every
    upload: [UPLOAD_DIR] is the directory [d], and [d] holds files only. *)
Definition upload_dir_ok (module_dir : string) (fs : filesystem) (d : path) : Prop :=
  fs_stat fs (UPLOAD_DIR module_dir) = Some (d, IDir)
  /\ has_subdir fs d = false
  /\ dir_names_ok fs d = true.

(** The upload of [filename] by [username] passes the checks of [open]
    on the path as a whole: no NUL byte, and neither the path nor the
    physical name is too long. *)
Definition name_fits (module_dir username filename : string) : bool :=
  negb (str_mem NUL (file_location module_dir username filename))
  && bool_decide
       (Z.of_nat (String.length (file_location module_dir username filename)) < PATH_MAX)
  && bool_decide
       (Z.of_nat (String.length (username +:+ "_" +:+ filename)) <= NAME_MAX).

(** What [open] raises for a path that it refuses or cannot create. *)
Definition open_error (p : string) : exn :=
  if str_mem NUL p then ValueError else OSError.

(** What [os.path.getsize] returns for an inode. *)
Definition inode_size (ino : inode) : Z :=
  match ino with
  | IFile data => Z.of_nat (length data)
  | IDir => dir_st_size
  end.

(** The entry the loop of [list_files] adds for the directory entry
    [filename] of [d], if it adds one. *)
Definition entry_of (fs : filesystem) (d : path) (name filename : string)
    : option FileEntry :=
  if str_startswith (name +:+ "_") filename then
    ino ← fs !! (d ++ [filename]);
    Some (mkFileEntry (str_drop (String.length name + 1) filename) (inode_size ino))
  else None.

(** ** Requests and states for the examples *)

Module Fixtures.

Import Reference.

Definition carol : user := mkUser "carol" (hash "s4lt" "pw-c").
Definition report : UploadFile := mkUploadFile "report.txt" hi.
Definition report2 : UploadFile := mkUploadFile "report.txt" bye.

(** The upload directory after alice has uploaded [report.txt]. *)
Definition fs1 : filesystem := (upload_file module_dir fs0 report alice).2.

(** Claims with an expiry and no subject. *)
Definition anonymous_claims : claims := {["exp" := CNum 2800]}.

(** [c * n]. *)
Fixpoint str_repeat (c : ascii) (n : nat) : string :=
  match n with
  | O => EmptyString
  | S n' => String c (str_repeat c n')
  end.

(** A password of 4097 characters and a file name of 300 bytes. *)
Definition long_password : string := str_repeat "a" 4097.
Definition long_name : string := str_repeat "n" 300.

(** A file name with a NUL byte. *)
Definition nul_name : string := String "x" (String NUL "y").

End Fixtures.

(** * Properties of the authentication handlers *)

Section AuthTheorems.

Context `{AuthEnv}.

Implicit Types (db : users_db) (u : UserCreate) (salt token : string) (now : Z).

(** The two paths of [register]. *)
Lemma register_present db salt u :
  is_Some (db !! username u) ->
  register db salt u = (Raise (HTTPExc username_taken), db).
Proof.
  intros Hin. unfold register. by rewrite bool_decide_eq_true_2.
Qed.

Lemma get_password_hash_fits salt pw :
  Z.of_nat (py_len pw) <= MAX_PASSWORD_SIZE ->
  get_password_hash salt pw = Return (pwd_context_hash salt pw).
Proof.
  intros Hfit. unfold get_password_hash. rewrite bool_decide_eq_false_2; [done | lia].
Qed.

Lemma get_password_hash_too_long salt pw :
  MAX_PASSWORD_SIZE < Z.of_nat (py_len pw) ->
  get_password_hash salt pw = Raise PasswordSizeError.
Proof.
  intros Hlong. unfold get_password_hash. by rewrite bool_decide_eq_true_2.
Qed.

Lemma register_absent db salt u :
  db !! username u = None ->
  Z.of_nat (py_len (password u)) <= MAX_PASSWORD_SIZE ->
  register db salt u =
    (Return registered,
     <[username u := mkUser (username u) (pwd_context_hash salt (password u))]> db).
Proof.
  intros Hout Hfit. unfold register. rewrite bool_decide_eq_false_2.
  - by rewrite get_password_hash_fits.
  - rewrite Hout. by intros [? ?].
Qed.

Lemma register_too_long db salt u :
  db !! username u = None ->
  MAX_PASSWORD_SIZE < Z.of_nat (py_len (password u)) ->
  register db salt u = (Raise PasswordSizeError, db).
Proof.
  intros Hout Hlong. unfold register. rewrite bool_decide_eq_false_2.
  - by rewrite get_password_hash_too_long.
  - rewrite Hout. by intros [? ?].
Qed.

Lemma register_cases db salt u :
  (is_Some (db !! username u) /\
   register db salt u = (Raise (HTTPExc username_taken), db))
  \/ (db !! username u = None /\
      MAX_PASSWORD_SIZE < Z.of_nat (py_len (password u)) /\
      register db salt u = (Raise PasswordSizeError, db))
  \/ (db !! username u = None /\
      Z.of_nat (py_len (password u)) <= MAX_PASSWORD_SIZE /\
      register db salt u =
        (Return registered,
         <[username u := mkUser (username u) (pwd_context_hash salt (password u))]> db)).
Proof.
  destruct (db !! username u) as [r |] eqn:E.
  - left. split; [by eexists |]. apply register_present. by rewrite E.
  - right.
    destruct (Z_lt_le_dec MAX_PASSWORD_SIZE (Z.of_nat (py_len (password u)))).
    + left. split; [done |]. split; [done |]. by apply register_too_long.
    + right. split; [done |]. split; [done |]. by apply register_absent.
Qed.

(** C4, as amended: [register] checks nothing about its input but the
    presence of the user name, and passlib checks nothing about the
    password but that it has at most 4096 characters. With an empty user
    name or an empty password, [register] succeeds and stores the record
    when the name is not in the store and the password has at most 4096
    characters, and fails with "Username already registered" (400),
    leaving the store as it was, when the name is in it. For a name that
    is not in the store and a longer password the hashing raises
    [PasswordSizeError], and nothing is stored. *)
Theorem register_accepts_empty_input db salt u :
  username u = "" \/ password u = "" ->
  (db !! username u = None ->
   Z.of_nat (py_len (password u)) <= MAX_PASSWORD_SIZE ->
     register db salt u =
       (Return registered,
        <[username u := mkUser (username u) (pwd_context_hash salt (password u))]> db))
  /\ (is_Some (db !! username u) ->
        register db salt u = (Raise (HTTPExc username_taken), db))
  /\ (db !! username u = None ->
      MAX_PASSWORD_SIZE < Z.of_nat (py_len (password u)) ->
        register db salt u = (Raise PasswordSizeError, db)).
Proof.
  intros _. split; [apply register_absent |].
  split; [apply register_present | apply register_too_long].
Qed.

(** C8: [register] fails with "Username already registered" (400)
    exactly when the user name is in the store, whatever the password,
    and it succeeds only when the user name is not in the store. *)
Theorem register_fails_iff_present db salt u :
  (is_Some (db !! username u) <->
     (register db salt u).1 = Raise (HTTPExc username_taken))
  /\ (forall m, (register db salt u).1 = Return m -> db !! username u = None).
Proof.
  destruct (register_cases db salt u)
    as [[Hin ->] | [(Hout & _ & ->) | (Hout & _ & ->)]]; simpl.
  - split; [done |]. intros m. done.
  - split; [| done]. rewrite Hout. split; [by intros [? ?] | done].
  - split; [| done]. rewrite Hout. split; [by intros [? ?] | done].
Qed.

(** C10: a registration that fails because the user name is taken
    leaves the store as it was: the record under that name, its password
    hash included, is the one that was there, and no other key has
    changed. *)
Theorem register_taken_leaves_store db salt u :
  is_Some (db !! username u) ->
  (register db salt u).1 = Raise (HTTPExc username_taken)
  /\ (register db salt u).2 = db
  /\ (register db salt u).2 !! username u = db !! username u.
Proof.
  intros Hin. by rewrite register_present.
Qed.

(** Any failure of [register] leaves the store as it was. *)
Lemma register_raise_leaves_store db salt u e :
  (register db salt u).1 = Raise e -> (register db salt u).2 = db.
Proof.
  destruct (register_cases db salt u)
    as [[_ ->] | [(_ & _ & ->) | (_ & _ & ->)]]; simpl; congruence.
Qed.

(** The two paths of [login]. *)
Lemma login_unknown db name pw now :
  db !! name = None -> login db name pw now = Raise (HTTPExc login_exception).
Proof. intros E. unfold login. by rewrite E. Qed.

Lemma verify_password_fits pw hashed :
  Z.of_nat (py_len pw) <= MAX_PASSWORD_SIZE ->
  verify_password pw hashed = Return (pwd_context_verify pw hashed).
Proof.
  intros Hfit. unfold verify_password. rewrite bool_decide_eq_false_2; [done | lia].
Qed.

Lemma verify_password_too_long pw hashed :
  MAX_PASSWORD_SIZE < Z.of_nat (py_len pw) ->
  verify_password pw hashed = Raise PasswordSizeError.
Proof.
  intros Hlong. unfold verify_password. by rewrite bool_decide_eq_true_2.
Qed.

Lemma login_wrong_password db name pw now r :
  db !! name = Some r ->
  verify_password pw (hashed_password r) = Return false ->
  login db name pw now = Raise (HTTPExc login_exception).
Proof. intros E V. unfold login. by rewrite E, V. Qed.

Lemma login_right_password db name pw now r :
  db !! name = Some r ->
  verify_password pw (hashed_password r) = Return true ->
  login db name pw now =
    Return (mkToken
              (create_access_token {["sub" := CStr (user_username r)]} None now)
              "bearer").
Proof. intros E V. unfold login. by rewrite E, V. Qed.

Lemma login_too_long db name pw now r :
  db !! name = Some r ->
  MAX_PASSWORD_SIZE < Z.of_nat (py_len pw) ->
  login db name pw now = Raise PasswordSizeError.
Proof.
  intros E Hlong. unfold login. by rewrite E, verify_password_too_long.
Qed.

(** A login with a user name that is not in the store and a login with a
    stored user name and a password that passlib compares and finds wrong
    raise the same exception: status 401, detail "Incorrect username or
    password", header WWW-Authenticate: Bearer. *)
Lemma login_failures_identical db name1 pw1 now1 name2 pw2 now2 r :
  db !! name1 = None ->
  db !! name2 = Some r ->
  verify_password pw2 (hashed_password r) = Return false ->
  login db name1 pw1 now1 = login db name2 pw2 now2
  /\ login db name1 pw1 now1 =
       Raise (HTTPExc (mkHTTPException 401 "Incorrect username or password"
                         (Some [("WWW-Authenticate", "Bearer")]))).
Proof.
  intros E1 E2 V.
  rewrite (login_unknown _ _ _ _ E1), (login_wrong_password _ _ _ _ _ E2 V).
  done.
Qed.

(** C6 on a password of more than 4096 characters: for a user name that
    is not in the store [login] raises the 401, and for a stored user
    name, whose password it cannot be, [verify_password] raises
    [PasswordSizeError], which leaves the handler as it is: the two
    failures differ, and tell whether the user name is stored. *)
Theorem login_long_password_oracle db name1 name2 r pw now :
  db !! name1 = None ->
  db !! name2 = Some r ->
  MAX_PASSWORD_SIZE < Z.of_nat (py_len pw) ->
  login db name1 pw now =
    Raise (HTTPExc (mkHTTPException 401 "Incorrect username or password"
                      (Some [("WWW-Authenticate", "Bearer")])))
  /\ login db name2 pw now = Raise PasswordSizeError
  /\ login db name1 pw now <> login db name2 pw now.
Proof.
  intros E1 E2 Hlong.
  rewrite (login_unknown _ _ _ _ E1), (login_too_long _ _ _ _ _ E2 Hlong).
  done.
Qed.

Lemma create_access_token_claims data expires_delta now :
  create_access_token data expires_delta now =
    jwt_encode (<["exp" := CNum (expiry_of expires_delta now)]> data)
      SECRET_KEY ALGORITHM.
Proof.
  unfold create_access_token, expiry_of.
  destruct expires_delta as [d |]; [case_bool_decide |]; done.
Qed.

(** A time-to-live other than zero, and the default of 30 minutes when
    none is given, is added to the time of issue. *)
Lemma create_access_token_ttl data d now :
  d <> 0 ->
  create_access_token data (Some d) now =
    jwt_encode (<["exp" := CNum (now + d)]> data) SECRET_KEY ALGORITHM.
Proof.
  intros Hd. rewrite create_access_token_claims. simpl.
  by rewrite bool_decide_eq_false_2.
Qed.

Lemma create_access_token_default data now :
  create_access_token data None now =
    jwt_encode (<["exp" := CNum (now + 30 * 60)]> data) SECRET_KEY ALGORITHM.
Proof. by rewrite create_access_token_claims. Qed.

(** C7 at a time-to-live of zero: [if expires_delta:] takes
    [timedelta(0)] for no time-to-live at all, and the token carries the
    expiry [now + 30 minutes], not [now + 0]. *)
Theorem create_access_token_zero_ttl data now :
  create_access_token data (Some 0) now = create_access_token data None now
  /\ create_access_token data (Some 0) now =
       jwt_encode (<["exp" := CNum (now + 1800)]> data) SECRET_KEY ALGORITHM.
Proof. by rewrite !create_access_token_claims. Qed.

(** With a codec that keeps the contract, a token is accepted before
    the expiry it carries and refused from it on. *)
Lemma issued_token_decodes data expires_delta now now' :
  jwt_round_trip ->
  jwt_decode (create_access_token data expires_delta now) SECRET_KEY [ALGORITHM] now' =
    if bool_decide (now' < expiry_of expires_delta now)
    then inr (<["exp" := CNum (expiry_of expires_delta now)]> data)
    else inl ExpiredSignature.
Proof.
  intros Hrt. rewrite create_access_token_claims.
  apply Hrt. by rewrite lookup_insert_eq.
Qed.

Lemma get_current_user_expired db data expires_delta now now' :
  jwt_round_trip ->
  expiry_of expires_delta now <= now' ->
  get_current_user db (create_access_token data expires_delta now) now' =
    Raise (HTTPExc credentials_exception).
Proof.
  intros Hrt Hle. unfold get_current_user.
  rewrite issued_token_decodes by done.
  rewrite bool_decide_eq_false_2 by lia. done.
Qed.

Lemma get_current_user_fresh db name r expires_delta now now' :
  jwt_round_trip ->
  now' < expiry_of expires_delta now ->
  db !! name = Some r ->
  get_current_user db
    (create_access_token {["sub" := CStr name]} expires_delta now) now' = Return r.
Proof.
  intros Hrt Hlt Hr. unfold get_current_user.
  rewrite issued_token_decodes by done.
  rewrite bool_decide_eq_true_2 by done.
  rewrite lookup_insert_ne by done.
  by rewrite lookup_singleton_eq, Hr.
Qed.

(** C9: after the token has been decoded, which checks signature and
    expiry, its subject is looked up in the store again. A subject that
    is not in the store is refused with 401, and whatever
    [get_current_user] returns is the record stored under the subject. *)
Theorem get_current_user_resolves_subject db token now payload :
  jwt_decode token SECRET_KEY [ALGORITHM] now = inr payload ->
  (forall sub, payload !! "sub" = Some (CStr sub) -> db !! sub = None ->
     get_current_user db token now = Raise (HTTPExc credentials_exception))
  /\ (forall r, get_current_user db token now = Return r <->
        exists sub, payload !! "sub" = Some (CStr sub) /\ db !! sub = Some r).
Proof.
  intros Hdec. unfold get_current_user. rewrite Hdec. split.
  - intros sub Hsub Hnone. by rewrite Hsub, Hnone.
  - intros r. split.
    + destruct (payload !! "sub") as [[sub | z |] |]; try done.
      destruct (db !! sub) as [r' |] eqn:E; [| done].
      intros [= ->]. by exists sub.
    + intros (sub & -> & ->). done.
Qed.

(** A token that does not decode is refused. *)
Lemma get_current_user_bad_token db token now e :
  jwt_decode token SECRET_KEY [ALGORITHM] now = inl e ->
  get_current_user db token now = Raise (HTTPExc credentials_exception).
Proof. intros Hdec. unfold get_current_user. by rewrite Hdec. Qed.

(** *** Tokens under the expiry contract *)

Lemma jwt_round_trip_expiry : jwt_round_trip -> jwt_expiry.
Proof.
  intros Hrt sub e now c.
  rewrite (Hrt c SECRET_KEY e now) by apply lookup_insert_eq.
  split; intros Hnow.
  - by rewrite bool_decide_eq_true_2.
  - rewrite bool_decide_eq_false_2; [done | lia].
Qed.

Lemma issued_token_accepted name expires_delta now now' :
  jwt_expiry ->
  now' < expiry_of expires_delta now ->
  jwt_decode (create_access_token {["sub" := CStr name]} expires_delta now)
    SECRET_KEY [ALGORITHM] now' =
    inr (<["exp" := CNum (expiry_of expires_delta now)]> {["sub" := CStr name]}).
Proof.
  intros Hex Hlt. rewrite create_access_token_claims.
  by apply (Hex name (expiry_of expires_delta now) now').
Qed.

Lemma issued_token_rejected name expires_delta now now' :
  jwt_expiry ->
  expiry_of expires_delta now < now' ->
  jwt_decode (create_access_token {["sub" := CStr name]} expires_delta now)
    SECRET_KEY [ALGORITHM] now' =
    inl ExpiredSignature.
Proof.
  intros Hex Hlt. rewrite create_access_token_claims.
  by apply (Hex name (expiry_of expires_delta now) now').
Qed.

Lemma get_current_user_before_expiry db name r expires_delta now now' :
  jwt_expiry ->
  now' < expiry_of expires_delta now ->
  db !! name = Some r ->
  get_current_user db
    (create_access_token {["sub" := CStr name]} expires_delta now) now' = Return r.
Proof.
  intros Hex Hlt Hr. unfold get_current_user.
  rewrite issued_token_accepted by done.
  rewrite lookup_insert_ne by done.
  by rewrite lookup_singleton_eq, Hr.
Qed.

Lemma get_current_user_after_expiry db name expires_delta now now' :
  jwt_expiry ->
  expiry_of expires_delta now < now' ->
  get_current_user db
    (create_access_token {["sub" := CStr name]} expires_delta now) now' =
    Raise (HTTPExc credentials_exception).
Proof.
  intros Hex Hlt. unfold get_current_user. by rewrite issued_token_rejected.
Qed.

(** C5, as amended: for a password of at most 4096 characters,
    registering a user name that is not in the store and logging in with
    the same credentials succeeds; the token returned has type "bearer",
    and at every instant before its expiry, the instant of the login
    included, it decodes to the subject [username] and
    [get_current_user] returns the record registered under it. *)
Theorem register_then_login db salt u now :
  hash_verifies ->
  jwt_expiry ->
  db !! username u = None ->
  Z.of_nat (py_len (password u)) <= MAX_PASSWORD_SIZE ->
  let db' := (register db salt u).2 in
  (register db salt u).1 = Return registered
  /\ exists tok,
       login db' (username u) (password u) now = Return (mkToken tok "bearer")
       /\ forall now', now' < now + 1800 ->
            (exists payload,
               jwt_decode tok SECRET_KEY [ALGORITHM] now' = inr payload
               /\ payload !! "sub" = Some (CStr (username u)))
            /\ get_current_user db' tok now' =
                 Return (mkUser (username u) (pwd_context_hash salt (password u))).
Proof.
  intros Hhash Hex Hout Hfit db'. subst db'.
  rewrite register_absent by done. simpl. split; [done |].
  eexists. split.
  - apply login_right_password.
    + apply lookup_insert_eq.
    + simpl. rewrite verify_password_fits by done. f_equal. by apply Hhash.
  - intros now' Hlt. simpl. split.
    + eexists. split.
      * by apply issued_token_accepted.
      * rewrite lookup_insert_ne by done. apply lookup_singleton_eq.
    + apply get_current_user_before_expiry; [done | done |].
      apply lookup_insert_eq.
Qed.

End AuthTheorems.

(** * Strings and paths *)

#[local] Arguments Ascii.eqb : simpl never.

Section StringFacts.

Implicit Types (a b s : string) (c : ascii).

Lemma str_app_nil_l b : "" +:+ b = b.
Proof. reflexivity. Qed.

Lemma str_app_cons c a b : String c a +:+ b = String c (a +:+ b).
Proof. reflexivity. Qed.

Ltac str_simpl := rewrite ?str_app_nil_l, ?str_app_cons; simpl.

Lemma str_app_nil_r s : s +:+ "" = s.
Proof. induction s as [| c s IH]; str_simpl; [done | by f_equal]. Qed.

Lemma str_app_assoc a b s : (a +:+ b) +:+ s = a +:+ (b +:+ s).
Proof. induction a as [| c a IH]; str_simpl; [done | by f_equal]. Qed.

Lemma str_length_app a b :
  String.length (a +:+ b) = (String.length a + String.length b)%nat.
Proof. induction a as [| c a IH]; str_simpl; [done | by f_equal]. Qed.

Lemma str_app_inj_r a b s : a +:+ s = b +:+ s -> a = b.
Proof.
  revert b. induction a as [| c a IH]; intros [| c' b] E.
  - done.
  - apply (f_equal String.length) in E.
    rewrite !str_length_app in E. simpl in E. lia.
  - apply (f_equal String.length) in E.
    rewrite !str_length_app in E. simpl in E. lia.
  - rewrite !str_app_cons in E. injection E as -> E. f_equal. by apply IH.
Qed.

Lemma str_startswith_app a b : str_startswith a (a +:+ b) = true.
Proof.
  induction a as [| c a IH]; str_simpl; [done |].
  by rewrite Ascii.eqb_refl.
Qed.

Lemma str_startswith_app_l s a b :
  str_startswith (s +:+ a) (s +:+ b) = str_startswith a b.
Proof.
  induction s as [| c s IH]; str_simpl; [done |].
  by rewrite Ascii.eqb_refl.
Qed.

(** A string that starts with [p] is [p] followed by what [str_drop]
    leaves. *)
Lemma str_startswith_drop p s :
  str_startswith p s = true -> s = p +:+ str_drop (String.length p) s.
Proof.
  revert s. induction p as [| c p IH]; intros s; [done |].
  destruct s as [| c' s]; simpl; [done |].
  intros [Hc Hp]%andb_true_iff. apply Ascii.eqb_eq in Hc as ->.
  rewrite str_app_cons. f_equal. by apply IH.
Qed.

Lemma str_drop_app a b : str_drop (String.length a) (a +:+ b) = b.
Proof. induction a as [| c a IH]; str_simpl; [done | apply IH]. Qed.

Lemma str_mem_app c a b : str_mem c (a +:+ b) = str_mem c a || str_mem c b.
Proof.
  induction a as [| c' a IH]; str_simpl; [done |].
  by rewrite IH, orb_assoc.
Qed.

(** A string that starts with a slash contains one. *)
Lemma str_startswith_slash_mem s :
  str_startswith "/" s = true -> str_mem "/" s = true.
Proof.
  destruct s as [| c s]; simpl; [done |].
  rewrite andb_true_r, Ascii.eqb_sym. by intros ->.
Qed.

Lemma str_app_ne_nil a b : b <> "" -> a +:+ b <> "".
Proof. intros Hb. destruct a; str_simpl; congruence. Qed.

Lemma str_endswith_app c a b : b <> "" -> str_endswith c (a +:+ b) = str_endswith c b.
Proof.
  intros Hb. induction a as [| c' a IH]; str_simpl; [done |].
  rewrite <- IH. destruct (a +:+ b) eqn:E; [| done].
  by apply str_app_ne_nil in E.
Qed.

(** *** Splitting at slashes *)

Lemma components_app_slash a b :
  components (a +:+ String "/" b) =
    ((components a).1, (components a).2 ++ (components b).1 :: (components b).2).
Proof.
  induction a as [| c a IH]; str_simpl.
  - by destruct (components b).
  - rewrite IH. destruct (components a) as [h t]; simpl.
    by destruct (Ascii.eqb c "/").
Qed.

Lemma split_slash_app_slash a b :
  split_slash (a +:+ String "/" b) = split_slash a ++ split_slash b.
Proof.
  unfold split_slash. rewrite components_app_slash.
  by destruct (components a), (components b).
Qed.

Lemma components_no_slash_app a b :
  str_mem "/" a = false ->
  components (a +:+ b) = (a +:+ (components b).1, (components b).2).
Proof.
  induction a as [| c a IH]; str_simpl; intros Hm.
  - by destruct (components b).
  - apply orb_false_iff in Hm as [Hc Hm]. rewrite IH by done.
    by rewrite Hc.
Qed.

Lemma components_no_slash s : str_mem "/" s = false -> components s = (s, []).
Proof.
  intros Hm. rewrite <- (str_app_nil_r s) at 1.
  rewrite components_no_slash_app by done. cbn [components fst snd].
  by rewrite str_app_nil_r.
Qed.

(** A string with a slash splits into more than one field. *)
Lemma components_slash s : str_mem "/" s = true -> (components s).2 <> [].
Proof.
  induction s as [| c s IH]; simpl; [done |].
  destruct (components s) as [h t] eqn:E.
  destruct (Ascii.eqb c "/") eqn:Hc; simpl; [done |].
  intros Hm. by apply IH.
Qed.

(** *** Lists and their last element *)

Lemma split_last_snoc {A} (l : list A) x : split_last (l ++ [x]) = Some (l, x).
Proof. induction l as [| y l IH]; simpl; [done | by rewrite IH]. Qed.

Lemma split_last_app {A} (l1 l2 : list A) i y :
  split_last l2 = Some (i, y) -> split_last (l1 ++ l2) = Some (l1 ++ i, y).
Proof.
  intros E. induction l1 as [| x l1 IH]; simpl; [done | by rewrite IH].
Qed.

Lemma split_last_cons_is_Some {A} (x : A) l : is_Some (split_last (x :: l)).
Proof. simpl. destruct (split_last l) as [[i y] |]; by eexists. Qed.

Lemma split_last_Some {A} (l : list A) i y :
  split_last l = Some (i, y) -> l = i ++ [y].
Proof.
  revert i. induction l as [| x l IH]; intros i; simpl; [done |].
  destruct (split_last l) as [[i' y'] |] eqn:E.
  - intros [= <- <-]. simpl. f_equal. by apply IH.
  - intros [= <- <-]. destruct l as [| z l]; [done |].
    destruct (split_last_cons_is_Some z l) as [? ?]. congruence.
Qed.

Lemma parent_snoc (d : path) n : parent (d ++ [n]) = d.
Proof. unfold parent. by rewrite split_last_snoc. Qed.

Lemma child_name_snoc (d : path) n : child_name d (d ++ [n]) = Some n.
Proof. unfold child_name. rewrite split_last_snoc. by rewrite bool_decide_eq_true_2. Qed.

Lemma child_name_Some (d k : path) n : child_name d k = Some n -> k = d ++ [n].
Proof.
  unfold child_name. destruct (split_last k) as [[d' n'] |] eqn:E; [| done].
  case_bool_decide; [| done]. intros [= ->]. subst. by apply split_last_Some.
Qed.

End StringFacts.

(** * Properties of the file handlers *)

Section FileTheorems.

Variable module_dir : string.

Implicit Types (fs : filesystem) (d : path) (cs : list string).
Implicit Types (name logical_name key : string).

Abbreviation upload_dir := (UPLOAD_DIR module_dir).

(** *** Where an upload goes *)

Lemma upload_dir_shape : upload_dir <> "" /\ str_endswith "/" upload_dir = false.
Proof.
  unfold UPLOAD_DIR, os_path_join.
  change (str_startswith "/" "uploaded_files") with false. cbv iota.
  destruct (bool_decide (module_dir = "") || str_endswith "/" module_dir).
  - split; [by apply str_app_ne_nil |]. by rewrite str_endswith_app.
  - split; [by apply str_app_ne_nil |]. by rewrite str_endswith_app.
Qed.

Lemma os_path_join_relative key :
  str_startswith "/" key = false ->
  os_path_join upload_dir key = upload_dir +:+ String "/" key.
Proof.
  intros Hk. destruct upload_dir_shape as [Hne Hend].
  unfold os_path_join. rewrite Hk, Hend, bool_decide_eq_false_2 by done.
  done.
Qed.

Lemma not_absolute name : str_mem "/" name = false -> str_startswith "/" name = false.
Proof.
  intros Hm. destruct (str_startswith "/" name) eqn:E; [| done].
  apply str_startswith_slash_mem in E. congruence.
Qed.

Lemma key_relative name logical_name :
  str_startswith "/" name = false ->
  str_startswith "/" (name +:+ "_" +:+ logical_name) = false.
Proof.
  intros Hm. destruct name as [| c name]; [reflexivity |].
  rewrite str_app_cons. simpl in *. by rewrite andb_true_r in *.
Qed.

Lemma key_components name logical_name :
  str_mem "/" name = false ->
  components (name +:+ "_" +:+ logical_name) =
    (name +:+ "_" +:+ (components logical_name).1, (components logical_name).2).
Proof.
  intros Hm. rewrite components_no_slash_app by done.
  rewrite (components_no_slash_app "_") by done. done.
Qed.

Lemma split_slash_file_location name logical_name :
  str_mem "/" name = false ->
  split_slash (file_location module_dir name logical_name) =
    split_slash upload_dir
    ++ (name +:+ "_" +:+ (components logical_name).1) :: (components logical_name).2.
Proof.
  intros Hm. unfold file_location.
  rewrite os_path_join_relative by by apply key_relative, not_absolute.
  rewrite split_slash_app_slash. f_equal.
  unfold split_slash. by rewrite key_components.
Qed.

(** A physical name is never the empty component, [.] or [..]. *)
Lemma key_is_a_name name s :
  let key := name +:+ "_" +:+ s in
  key <> "" /\ key <> "." /\ key <> "..".
Proof.
  intros key.
  assert (str_mem "_" key = true) as Hm.
  { unfold key. rewrite !str_mem_app. simpl. apply orb_true_r. }
  repeat split; intros E; by rewrite E in Hm.
Qed.

(** *** Path resolution *)

Lemma walk_app fs d cs1 cs2 :
  walk fs d (cs1 ++ cs2) = walk fs d cs1 ≫= fun d' => walk fs d' cs2.
Proof.
  revert d. induction cs1 as [| c cs1 IH]; intros d; simpl; [done |].
  repeat case_bool_decide; try apply IH.
  destruct (fs !! (d ++ [c])) as [[] |]; [done | apply IH | done].
Qed.

Lemma normpath_app d cs1 cs2 :
  normpath (normpath d cs1) cs2 = normpath d (cs1 ++ cs2).
Proof.
  revert d. induction cs1 as [| c cs1 IH]; intros d; simpl; [done |].
  repeat case_bool_decide; apply IH.
Qed.

Lemma walk_name_not_dir fs d c cs :
  c <> "" -> c <> "." -> c <> ".." ->
  fs !! (d ++ [c]) <> Some IDir ->
  walk fs d (c :: cs) = None.
Proof.
  intros H1 H2 H3 Hnd. simpl.
  rewrite bool_decide_eq_false_2 by (intros [? | ?]; done).
  rewrite bool_decide_eq_false_2 by done.
  by destruct (fs !! (d ++ [c])) as [[] |].
Qed.

(** [os.stat] finds a directory where [walk] ends. *)
Lemma fs_stat_dir_walk fs p d :
  fs_stat fs p = Some (d, IDir) -> walk fs [] (split_slash p) = Some d.
Proof.
  unfold fs_stat. case_bool_decide; [done |].
  destruct (split_last (split_slash p)) as [[ds n] |] eqn:E; [| done].
  apply split_last_Some in E. rewrite E, walk_app. simpl.
  destruct (walk fs [] ds) as [d0 |]; [| done]. simpl.
  repeat case_bool_decide; try by intros [= <-].
  destruct (fs !! (d0 ++ [n])) as [[] |] eqn:F; simpl; try done.
  by intros [= <-].
Qed.

Lemma split_slash_cons p : exists c cs, split_slash p = c :: cs.
Proof. unfold split_slash. destruct (components p) as [h t]. by exists h, t. Qed.

Lemma walk_fs_stat_dir fs p d :
  p <> "" -> walk fs [] (split_slash p) = Some d -> fs_stat fs p = Some (d, IDir).
Proof.
  intros Hp. unfold fs_stat. rewrite bool_decide_eq_false_2 by done.
  destruct (split_slash_cons p) as (c & cs & ->).
  destruct (split_last_cons_is_Some c cs) as [[ds n] E].
  rewrite E. apply split_last_Some in E. rewrite E, walk_app. simpl.
  destruct (walk fs [] ds) as [d0 |]; [| done]. simpl.
  repeat case_bool_decide; try by intros [= <-].
  destruct (fs !! (d0 ++ [n])) as [[] |] eqn:F; simpl; try done.
  by intros [= <-].
Qed.

(** *** Directories below the upload directory *)

Lemma has_subdir_true fs d :
  has_subdir fs d = true <-> exists n, fs !! (d ++ [n]) = Some IDir.
Proof.
  unfold has_subdir. rewrite existsb_exists. split.
  - intros ([k ino] & Hin & Hk).
    destruct ino; [done |]. apply bool_decide_eq_true in Hk as [n Hn].
    apply child_name_Some in Hn as ->. exists n.
    apply elem_of_map_to_list. by apply list_elem_of_In.
  - intros [n Hn]. exists (d ++ [n], IDir). split.
    + apply list_elem_of_In. by apply elem_of_map_to_list.
    + apply bool_decide_eq_true. rewrite child_name_snoc. by eexists.
Qed.

Lemma has_subdir_false fs d n :
  has_subdir fs d = false -> fs !! (d ++ [n]) <> Some IDir.
Proof.
  intros Hf Hn. assert (has_subdir fs d = true) as Ht; [| congruence].
  apply has_subdir_true. by exists n.
Qed.

(** What [open] does, by cases: it raises, [ValueError] for a NUL byte
    and [OSError] otherwise, or the system call has written. *)
Lemma fs_write_cases fs p data :
  fs_write fs p data = Raise (open_error p)
  \/ exists fs', fs_write fs p data = Return fs'
                 /\ sys_open_write fs p data = Some fs'
                 /\ str_mem NUL p = false
                 /\ Z.of_nat (String.length p) < PATH_MAX.
Proof.
  unfold fs_write, open_error. destruct (str_mem NUL p); [by left |].
  case_bool_decide; [by left |].
  destruct (sys_open_write fs p data) as [fs' |]; [| by left].
  right. exists fs'. repeat split; try done. lia.
Qed.

Lemma fs_write_None fs p data :
  sys_open_write fs p data = None -> fs_write fs p data = Raise (open_error p).
Proof.
  intros Hnone. destruct (fs_write_cases fs p data) as [E | (fs' & _ & E & _)];
    [done | congruence].
Qed.

Lemma fs_write_Return fs p data fs' :
  str_mem NUL p = false ->
  Z.of_nat (String.length p) < PATH_MAX ->
  sys_open_write fs p data = Some fs' ->
  fs_write fs p data = Return fs'.
Proof.
  intros Hnul Hlen Hsys. unfold fs_write.
  rewrite Hnul, bool_decide_eq_false_2, Hsys; [done | lia].
Qed.

(** A write creates no directory and removes none. *)
Lemma fs_write_dirs fs p data fs' k :
  sys_open_write fs p data = Some fs' ->
  fs' !! k = Some IDir <-> fs !! k = Some IDir.
Proof.
  unfold sys_open_write.
  destruct (split_last (split_slash p)) as [[ds n] |]; [| done]. simpl.
  destruct (walk fs [] ds) as [d |]; [| done]. simpl.
  case_bool_decide; [done |]. case_bool_decide; [done |].
  destruct (fs !! (d ++ [n])) as [ino |] eqn:E.
  - destruct ino; [| done]. intros [= <-].
    destruct (decide (k = d ++ [n])) as [-> |].
    + rewrite lookup_insert_eq, E. done.
    + by rewrite lookup_insert_ne.
  - intros [= <-].
    destruct (decide (k = d ++ [n])) as [-> |].
    + rewrite lookup_insert_eq, E. done.
    + by rewrite lookup_insert_ne.
Qed.

Lemma fs_write_has_subdir fs p data fs' d :
  sys_open_write fs p data = Some fs' -> has_subdir fs' d = has_subdir fs d.
Proof.
  intros Hw. apply eq_true_iff_eq. rewrite !has_subdir_true.
  split; intros [n Hn]; exists n; by apply (fs_write_dirs _ _ _ _ _ Hw).
Qed.

(** The directories decide where a path leads. *)
Lemma walk_same_dirs fs fs' d cs :
  (forall k, fs' !! k = Some IDir <-> fs !! k = Some IDir) ->
  walk fs' d cs = walk fs d cs.
Proof.
  intros Hd. revert d. induction cs as [| c cs IH]; intros d; simpl; [done |].
  repeat case_bool_decide; try apply IH.
  destruct (fs !! (d ++ [c])) as [[] |] eqn:E.
  - destruct (fs' !! (d ++ [c])) as [[] |] eqn:E'; try done.
    apply Hd in E'. congruence.
  - apply Hd in E. rewrite E. apply IH.
  - destruct (fs' !! (d ++ [c])) as [[] |] eqn:E'; try done.
    apply Hd in E'. congruence.
Qed.

(** *** Uploads *)

Section Upload.

Variables (fs : filesystem) (d : path).
Hypothesis upload_dir_is_d : fs_stat fs upload_dir = Some (d, IDir).
Hypothesis upload_dir_flat : has_subdir fs d = false.

(** A name without a slash, uploaded by a user without one, is written
    into the upload directory under [username_name], if that is not too
    long. *)
Lemma sys_open_write_flat name logical_name data :
  str_mem "/" name = false ->
  str_mem "/" logical_name = false ->
  sys_open_write fs (file_location module_dir name logical_name) data =
    if bool_decide
         (NAME_MAX < Z.of_nat (String.length (name +:+ "_" +:+ logical_name)))
    then None
    else Some (<[d ++ [name +:+ "_" +:+ logical_name] := IFile data]> fs).
Proof.
  intros Hn Hl. unfold sys_open_write.
  rewrite split_slash_file_location, components_no_slash by done. simpl.
  rewrite split_last_snoc. simpl.
  rewrite (fs_stat_dir_walk _ _ _ upload_dir_is_d). simpl.
  destruct (key_is_a_name name logical_name) as (H1 & H2 & H3).
  rewrite bool_decide_eq_false_2 by (intros [? | [? | ?]]; done).
  case_bool_decide; [done |].
  pose proof (has_subdir_false fs d (name +:+ "_" +:+ logical_name)
                upload_dir_flat) as Hnd.
  by destruct (fs !! (d ++ [name +:+ "_" +:+ logical_name])) as [[] |].
Qed.

Lemma fs_write_flat name logical_name data :
  str_mem "/" name = false ->
  str_mem "/" logical_name = false ->
  name_fits module_dir name logical_name = true ->
  fs_write fs (file_location module_dir name logical_name) data =
    Return (<[d ++ [name +:+ "_" +:+ logical_name] := IFile data]> fs).
Proof.
  intros Hn Hl Hfit. unfold name_fits in Hfit.
  apply andb_true_iff in Hfit as [[Hnul Hpath]%andb_true_iff Hname].
  apply negb_true_iff in Hnul.
  apply bool_decide_eq_true in Hpath. apply bool_decide_eq_true in Hname.
  apply fs_write_Return; [done | done |].
  rewrite sys_open_write_flat by done.
  rewrite bool_decide_eq_false_2; [done | lia].
Qed.

(** If it is too long, has a NUL byte or makes the path too long, nothing
    is written. *)
Lemma fs_write_unfit name logical_name data :
  str_mem "/" name = false ->
  str_mem "/" logical_name = false ->
  name_fits module_dir name logical_name = false ->
  fs_write fs (file_location module_dir name logical_name) data =
    Raise (open_error (file_location module_dir name logical_name)).
Proof.
  intros Hn Hl Hfit.
  destruct (fs_write_cases fs (file_location module_dir name logical_name) data)
    as [E | (fs' & _ & Hsys & Hnul & Hpath)]; [done |].
  rewrite sys_open_write_flat in Hsys by done.
  case_bool_decide as Hname; [done |].
  unfold name_fits in Hfit. rewrite Hnul in Hfit. simpl in Hfit.
  rewrite bool_decide_eq_true_2 in Hfit by done.
  rewrite bool_decide_eq_true_2 in Hfit by lia. done.
Qed.

(** A name with a slash leads through [username_...], which is no
    directory: nothing is written. *)
Lemma sys_open_write_slash name logical_name data :
  str_mem "/" name = false ->
  str_mem "/" logical_name = true ->
  sys_open_write fs (file_location module_dir name logical_name) data = None.
Proof.
  intros Hn Hl. unfold sys_open_write.
  rewrite split_slash_file_location by done.
  pose proof (components_slash _ Hl) as Hne.
  destruct (components logical_name) as [h t]; simpl in *.
  destruct t as [| x t]; [done |].
  destruct (split_last_cons_is_Some x t) as [[i y] Hiy].
  rewrite (split_last_app _ (_ :: x :: t) ((name +:+ "_" +:+ h) :: i) y)
    by (simpl in *; by rewrite Hiy).
  simpl. rewrite walk_app, (fs_stat_dir_walk _ _ _ upload_dir_is_d).
  destruct (key_is_a_name name h) as (H1 & H2 & H3).
  cbn [mbind option_bind].
  rewrite walk_name_not_dir; [done | done | done | done |].
  by apply has_subdir_false.
Qed.

Lemma fs_write_slash name logical_name data :
  str_mem "/" name = false ->
  str_mem "/" logical_name = true ->
  fs_write fs (file_location module_dir name logical_name) data =
    Raise (open_error (file_location module_dir name logical_name)).
Proof. intros Hn Hl. by apply fs_write_None, sys_open_write_slash. Qed.

(** Where a slash-free name of a slash-free user would resolve is in
    the user's namespace. *)
Lemma flat_name_inside name logical_name :
  str_mem "/" name = false ->
  str_mem "/" logical_name = false ->
  resolves_outside module_dir name logical_name = false.
Proof.
  intros Hn Hl. unfold resolves_outside, in_namespace.
  rewrite split_slash_file_location, components_no_slash by done. simpl.
  rewrite <- normpath_app. simpl.
  destruct (key_is_a_name name logical_name) as (H1 & H2 & H3).
  rewrite bool_decide_eq_false_2 by (intros [? | ?]; done).
  rewrite bool_decide_eq_false_2 by done.
  rewrite split_last_snoc, bool_decide_eq_true_2 by done.
  rewrite <- str_app_assoc. by rewrite (str_startswith_app (name +:+ "_")).
Qed.

(** C3, as amended: [upload_file] validates nothing and has no
    InvalidName outcome. For a user name without a slash and an upload
    directory that holds no directory, every logical name whose
    location would resolve outside the user's namespace makes the
    upload fail with the exception of the failed [open], which no
    handler catches and which is no [HTTPException]: [ValueError] when
    the location has a NUL byte and [OSError] otherwise. Nothing is
    written. *)
Theorem upload_outside_namespace_fails file_ current_user :
  str_mem "/" (user_username current_user) = false ->
  resolves_outside module_dir (user_username current_user) (filename file_) = true ->
  let location :=
    file_location module_dir (user_username current_user) (filename file_) in
  upload_file module_dir fs file_ current_user =
    (Raise (if str_mem NUL location then ValueError else OSError), fs)
  /\ forall e,
       (upload_file module_dir fs file_ current_user).1 <> Raise (HTTPExc e).
Proof.
  intros Hn Hout location. unfold upload_file.
  destruct (str_mem "/" (filename file_)) eqn:Hl.
  - rewrite fs_write_slash by done. unfold open_error. fold location.
    split; [done |]. intros e. simpl. by destruct (str_mem NUL location).
  - rewrite flat_name_inside in Hout by done. done.
Qed.

(** An upload under a name without a slash that passes the checks of
    [open] succeeds, writes the bytes under [username_name] in the
    upload directory, and touches no other entry. *)
Lemma upload_file_flat file_ current_user :
  str_mem "/" (user_username current_user) = false ->
  str_mem "/" (filename file_) = false ->
  name_fits module_dir (user_username current_user) (filename file_) = true ->
  upload_file module_dir fs file_ current_user =
    (Return (mkUploadInfo ("File '" +:+ filename file_ +:+ "' saved.")
               (user_username current_user)),
     <[d ++ [user_username current_user +:+ "_" +:+ filename file_]
         := IFile (file file_)]> fs).
Proof.
  intros Hn Hl Hfit. unfold upload_file. by rewrite fs_write_flat.
Qed.

(** Every other upload of a user without a slash in the name fails and
    writes nothing. *)
Lemma upload_file_refused file_ current_user :
  str_mem "/" (user_username current_user) = false ->
  str_mem "/" (filename file_) = true
  \/ name_fits module_dir (user_username current_user) (filename file_) = false ->
  upload_file module_dir fs file_ current_user =
    (Raise (open_error
              (file_location module_dir (user_username current_user) (filename file_))),
     fs).
Proof.
  intros Hn Hbad. unfold upload_file.
  destruct (str_mem "/" (filename file_)) eqn:Hl.
  - by rewrite fs_write_slash.
  - destruct Hbad as [? | Hfit]; [done |]. by rewrite fs_write_unfit.
Qed.

(** Whatever an upload does, the upload directory stays the flat
    directory it was. *)
Lemma upload_file_keeps_dir file_ current_user :
  let fs' := (upload_file module_dir fs file_ current_user).2 in
  fs_stat fs' upload_dir = Some (d, IDir) /\ has_subdir fs' d = false.
Proof.
  unfold upload_file.
  destruct (fs_write_cases fs
              (file_location module_dir (user_username current_user) (filename file_))
              (file file_)) as [-> | (fs' & -> & E & _)]; simpl; [done |].
  split.
  - apply walk_fs_stat_dir; [apply upload_dir_shape |].
    rewrite (walk_same_dirs fs fs').
    + by apply fs_stat_dir_walk.
    + intros k. by apply (fs_write_dirs _ _ _ _ _ E).
  - by rewrite (fs_write_has_subdir _ _ _ _ _ E).
Qed.

End Upload.

(** *** Listings *)

(** [os.listdir] names the entries of the directory. *)
Lemma os_listdir_names fs p names :
  os_listdir fs p = Return names ->
  exists d, fs_stat fs p = Some (d, IDir)
            /\ forall n, n ∈ names <-> is_Some (fs !! (d ++ [n])).
Proof.
  unfold os_listdir.
  destruct (fs_stat fs p) as [[d [data |]] |]; try done.
  intros [= <-]. exists d. split; [done |]. intros n.
  rewrite list_elem_of_omap. split.
  - intros (k & Hk & Hn). apply child_name_Some in Hn as ->.
    apply list_elem_of_fmap in Hk as ([k' ino] & -> & Hin).
    apply elem_of_map_to_list in Hin. by exists ino.
  - intros [ino Hino]. exists (d ++ [n]). split; [| apply child_name_snoc].
    apply list_elem_of_fmap. exists (d ++ [n], ino). split; [done |].
    by apply elem_of_map_to_list.
Qed.

(** The loop adds one entry per name that starts with [username_]: the
    rest of that name, and the size of what the name leads to. *)
Lemma list_files_loop_entries fs name names files l e :
  list_files_loop module_dir fs name names files = Return l ->
  e ∈ l ->
  e ∈ files
  \/ exists filename,
       filename ∈ names
       /\ str_startswith (name +:+ "_") filename = true
       /\ entry_name e = str_drop (String.length name + 1) filename
       /\ os_path_getsize fs (os_path_join upload_dir filename) = Return (entry_size e).
Proof.
  revert files. induction names as [| filename names IH]; intros files; simpl.
  - intros [= <-]. by left.
  - destruct (str_startswith (name +:+ "_") filename) eqn:Hp.
    + destruct (os_path_getsize fs _) as [sz |] eqn:Hsz; [| done].
      cbn [mbind result_bind]. intros Hl He.
      destruct (IH _ Hl He) as [Hin | (fn & Hfn & ?)].
      * apply elem_of_app in Hin as [Hin | Hin]; [by left |].
        apply list_elem_of_singleton in Hin as ->. right.
        exists filename. split; [left | done].
      * right. exists fn. split; [by right | done].
    + intros Hl He. destruct (IH _ Hl He) as [Hin | (fn & Hfn & ?)]; [by left |].
      right. exists fn. split; [by right | done].
Qed.

(** Every entry of a listing stands for an entry of the upload directory
    named [username_] followed by the listed name. *)
Lemma list_files_entries fs current_user l e :
  list_files module_dir fs current_user = Return l ->
  e ∈ l ->
  exists d, fs_stat fs upload_dir = Some (d, IDir)
            /\ is_Some (fs !! (d ++ [user_username current_user +:+ "_" +:+ entry_name e])).
Proof.
  unfold list_files. destruct (os_path_exists fs upload_dir); [| by intros [= <-] ?%elem_of_nil].
  destruct (os_listdir fs upload_dir) as [names |] eqn:Hls; [| done].
  cbn [mbind result_bind]. intros Hl He.
  apply os_listdir_names in Hls as (d & Hd & Hnames). exists d. split; [done |].
  destruct (list_files_loop_entries _ _ _ _ _ _ Hl He)
    as [?%elem_of_nil | (fn & Hfn & Hp & Hname & _)]; [done |].
  apply str_startswith_drop in Hp.
  rewrite str_length_app in Hp. simpl in Hp. rewrite <- Hname in Hp.
  rewrite str_app_assoc in Hp. rewrite <- Hp. by apply Hnames.
Qed.

(** *** Physical names *)

(** C2 on two owners of which one is the other followed by an
    underscore and more: the owner [a] with the logical name [b_c] and
    the owner [a_b] with the logical name [c] are given the same
    location. *)
Theorem file_location_collision :
  "a" <> "a_b"
  /\ file_location module_dir "a" "b_c" = file_location module_dir "a_b" "c".
Proof. split; [done | reflexivity]. Qed.

(** Two owners whose names do not start with a slash are given
    different locations for the same logical name. *)
Lemma file_location_same_name name1 name2 logical_name :
  str_startswith "/" name1 = false ->
  str_startswith "/" name2 = false ->
  file_location module_dir name1 logical_name =
    file_location module_dir name2 logical_name ->
  name1 = name2.
Proof.
  intros H1 H2. unfold file_location.
  rewrite !os_path_join_relative by by apply key_relative.
  intros E. apply String.app_inj in E. injection E as E.
  by apply str_app_inj_r in E.
Qed.

End FileTheorems.

(** * The reference instances keep the contracts *)

Lemma reference_hash_verifies : @hash_verifies Reference.env.
Proof.
  intros salt secret _. simpl. unfold Reference.verify, Reference.hash.
  rewrite <- str_app_assoc. apply str_startswith_app.
Qed.

Lemma reference_string_to_pos p :
  Reference.string_to_pos (Reference.pos_to_string p) = Some p.
Proof. induction p as [p IH | p IH |]; simpl; [by rewrite IH.. | done]. Qed.

Lemma reference_jwt_round_trip : @jwt_round_trip Reference.env.
Proof.
  intros c key e now Hexp. simpl.
  unfold Reference.decode_token, Reference.encode_token.
  rewrite reference_string_to_pos. simpl. rewrite decode_encode.
  rewrite bool_decide_eq_true_2 by done.
  rewrite bool_decide_eq_true_2 by apply list_elem_of_singleton, eq_refl.
  simpl. by rewrite Hexp.
Qed.

Lemma reference_jwt_expiry : @jwt_expiry Reference.env.
Proof. exact (jwt_round_trip_expiry reference_jwt_round_trip). Qed.

(** * The handlers on concrete requests *)

Section Scenarios.

Import Reference Fixtures.

#[local] Existing Instance env.

(** Registering with an empty user name, and with an empty password. *)
Lemma register_accepts_empty_input_witness :
  (username (mkUserCreate "" "pw") = "" \/ password (mkUserCreate "" "pw") = "")
  /\ Z.of_nat (py_len (password (mkUserCreate "" "pw"))) <= MAX_PASSWORD_SIZE
  /\ register ∅ "s4lt" (mkUserCreate "" "pw") =
       (Return registered, <["" := mkUser "" (hash "s4lt" "pw")]> ∅)
  /\ MAX_PASSWORD_SIZE < Z.of_nat (py_len (password (mkUserCreate "" long_password)))
  /\ register ∅ "s4lt" (mkUserCreate "" long_password) = (Raise PasswordSizeError, ∅).
Proof.
  assert (Z.of_nat (py_len "pw") <= MAX_PASSWORD_SIZE) as Hfit
    by (vm_compute; discriminate).
  assert (MAX_PASSWORD_SIZE < Z.of_nat (py_len long_password)) as Hlong
    by reflexivity.
  split; [by left |]. split; [exact Hfit |]. split.
  - exact (proj1 (register_accepts_empty_input ∅ "s4lt" (mkUserCreate "" "pw")
                    (or_introl eq_refl)) eq_refl Hfit).
  - split; [exact Hlong |].
    exact (proj2 (proj2 (register_accepts_empty_input ∅ "s4lt"
                           (mkUserCreate "" long_password) (or_introl eq_refl)))
             eq_refl Hlong).
Defined.

(** C4 as stated fails: a registration with an empty user name and one
    with an empty password both succeed and create a record. *)
Lemma register_empty_input_counterexample :
  (let r := register ∅ "s4lt" (mkUserCreate "" "pw") in
   r.1 = Return registered /\ r.2 !! "" = Some (mkUser "" (hash "s4lt" "pw")))
  /\ (let r := register ∅ "s4lt" (mkUserCreate "alice" "") in
      r.1 = Return registered
      /\ r.2 !! "alice" = Some (mkUser "alice" (hash "s4lt" ""))).
Proof. split; split; reflexivity. Qed.

Lemma register_then_login_witness :
  hash_verifies /\ jwt_expiry /\ (∅ : users_db) !! "alice" = None
  /\ Z.of_nat (py_len (password (mkUserCreate "alice" "pw123"))) <= MAX_PASSWORD_SIZE
  /\ let db' := (register ∅ "s4lt" (mkUserCreate "alice" "pw123")).2 in
     (register ∅ "s4lt" (mkUserCreate "alice" "pw123")).1 = Return registered
     /\ exists tok,
          login db' "alice" "pw123" 1000 = Return (mkToken tok "bearer")
          /\ forall now', now' < 1000 + 1800 ->
               (exists payload,
                  jwt_decode tok SECRET_KEY [ALGORITHM] now' = inr payload
                  /\ payload !! "sub" = Some (CStr "alice"))
               /\ get_current_user db' tok now' =
                    Return (mkUser "alice" (hash "s4lt" "pw123")).
Proof.
  assert (Z.of_nat (py_len "pw123") <= MAX_PASSWORD_SIZE) as Hfit
    by (vm_compute; discriminate).
  split; [exact reference_hash_verifies |].
  split; [exact reference_jwt_expiry |].
  split; [reflexivity |]. split; [exact Hfit |].
  exact (register_then_login ∅ "s4lt" (mkUserCreate "alice" "pw123") 1000
           reference_hash_verifies reference_jwt_expiry eq_refl Hfit).
Defined.

(** C5 as stated fails: with a password of 4097 characters the hashing
    raises [PasswordSizeError], nothing is registered, and the login with
    the same credentials is refused. *)
Lemma register_then_login_counterexample :
  py_len long_password = 4097%nat
  /\ register ∅ "s4lt" (mkUserCreate "alice" long_password) =
       (Raise PasswordSizeError, ∅)
  /\ login (register ∅ "s4lt" (mkUserCreate "alice" long_password)).2
       "alice" long_password 1000 = Raise (HTTPExc login_exception).
Proof. split; [reflexivity |]. split; reflexivity. Qed.

Lemma login_long_password_oracle_witness :
  db_bob !! "alice" = None
  /\ db_bob !! "bob" = Some bob
  /\ MAX_PASSWORD_SIZE < Z.of_nat (py_len long_password)
  /\ login db_bob "alice" long_password 1000 =
       Raise (HTTPExc (mkHTTPException 401 "Incorrect username or password"
                         (Some [("WWW-Authenticate", "Bearer")])))
  /\ login db_bob "bob" long_password 1000 = Raise PasswordSizeError
  /\ login db_bob "alice" long_password 1000 <> login db_bob "bob" long_password 1000.
Proof.
  split; [reflexivity |]. split; [reflexivity |]. split; [reflexivity |].
  exact (login_long_password_oracle db_bob "alice" "bob" bob long_password 1000
           eq_refl eq_refl eq_refl).
Defined.

Lemma register_taken_leaves_store_witness :
  is_Some (db_bob !! "bob")
  /\ (register db_bob "s4lt" (mkUserCreate "bob" "other")).1 =
       Raise (HTTPExc username_taken)
  /\ (register db_bob "s4lt" (mkUserCreate "bob" "other")).2 = db_bob
  /\ (register db_bob "s4lt" (mkUserCreate "bob" "other")).2 !! "bob" = db_bob !! "bob".
Proof.
  split; [by exists bob |].
  apply (register_taken_leaves_store db_bob "s4lt" (mkUserCreate "bob" "other")).
  by exists bob.
Defined.

(** A token for a subject that is not in the store. *)
Lemma get_current_user_resolves_subject_witness :
  let payload : claims := <["exp" := CNum 2800]> {["sub" := CStr "carol"]} in
  let token := jwt_encode payload SECRET_KEY ALGORITHM in
  jwt_decode token SECRET_KEY [ALGORITHM] 1000 = inr payload
  /\ (forall sub, payload !! "sub" = Some (CStr sub) -> db_bob !! sub = None ->
        get_current_user db_bob token 1000 = Raise (HTTPExc credentials_exception))
  /\ (forall r, get_current_user db_bob token 1000 = Return r <->
        exists sub, payload !! "sub" = Some (CStr sub) /\ db_bob !! sub = Some r).
Proof.
  intros payload token.
  assert (jwt_decode token SECRET_KEY [ALGORITHM] 1000 = inr payload) as Hdec.
  { apply (reference_jwt_round_trip payload SECRET_KEY 2800 1000). reflexivity. }
  split; [exact Hdec |].
  exact (get_current_user_resolves_subject db_bob token 1000 payload Hdec).
Defined.

(** A token issued with a time-to-live of zero is accepted a second, and
    29 minutes, after it was issued. *)
Lemma zero_ttl_token_accepted :
  let token := create_access_token {["sub" := CStr "bob"]} (Some 0) 1000 in
  get_current_user db_bob token 1001 = Return bob
  /\ get_current_user db_bob token (1000 + 29 * 60) = Return bob.
Proof.
  split; apply get_current_user_fresh;
    first [exact reference_jwt_round_trip | reflexivity].
Qed.

(** *** Files *)

(** C1 on the users [a] and [a_b]: after [a_b] has uploaded [x.txt], two
    bytes long, the listing of [a], who has uploaded nothing, shows a
    file [b_x.txt] of two bytes. *)
Theorem list_files_shows_other_user :
  let a := mkUser "a" (hash "s4lt" "pw-a") in
  let a_b := mkUser "a_b" (hash "s4lt" "pw-ab") in
  let fs1 := (upload_file module_dir fs0 (mkUploadFile "x.txt" hi) a_b).2 in
  (upload_file module_dir fs0 (mkUploadFile "x.txt" hi) a_b).1 =
    Return (mkUploadInfo "File 'x.txt' saved." "a_b")
  /\ list_files module_dir fs0 a = Return []
  /\ list_files module_dir fs1 a = Return [mkFileEntry "b_x.txt" 2]
  /\ list_files module_dir fs1 a_b = Return [mkFileEntry "x.txt" 2].
Proof. vm_compute. done. Qed.

(** The upload of [c] by [a_b] replaces the file [b_c] of [a]. *)
Lemma upload_overwrites_other_user :
  let a := mkUser "a" (hash "s4lt" "pw-a") in
  let a_b := mkUser "a_b" (hash "s4lt" "pw-ab") in
  let fs1 := (upload_file module_dir fs0 (mkUploadFile "b_c" hi) a).2 in
  let fs2 := (upload_file module_dir fs1 (mkUploadFile "c" bye) a_b).2 in
  list_files module_dir fs1 a = Return [mkFileEntry "b_c" 2]
  /\ list_files module_dir fs2 a = Return [mkFileEntry "b_c" 3]
  /\ fs2 !! (upload_dir_path ++ ["a_b_c"]) = Some (IFile bye).
Proof. vm_compute. done. Qed.

(** The users of the specification's example do not collide. *)
Lemma upload_same_name_two_users :
  let userA := mkUser "userA" (hash "s4lt" "pw-a") in
  let userB := mkUser "userB" (hash "s4lt" "pw-b") in
  let fs1 := (upload_file module_dir fs0 (mkUploadFile "x.txt" hi) userA).2 in
  let fs2 := (upload_file module_dir fs1 (mkUploadFile "x.txt" bye) userB).2 in
  list_files module_dir fs2 userA = Return [mkFileEntry "x.txt" 2]
  /\ list_files module_dir fs2 userB = Return [mkFileEntry "x.txt" 3].
Proof. vm_compute. done. Qed.

Lemma upload_outside_namespace_fails_witness :
  fs_stat fs0 (UPLOAD_DIR module_dir) = Some (upload_dir_path, IDir)
  /\ has_subdir fs0 upload_dir_path = false
  /\ str_mem "/" (user_username alice) = false
  /\ resolves_outside module_dir (user_username alice)
       (filename (mkUploadFile "x/../bob_notes.txt" hi)) = true
  /\ upload_file module_dir fs0 (mkUploadFile "x/../bob_notes.txt" hi) alice =
       (Raise OSError, fs0)
  /\ resolves_outside module_dir (user_username alice)
       (filename (mkUploadFile (String "/" nul_name) hi)) = true
  /\ upload_file module_dir fs0 (mkUploadFile (String "/" nul_name) hi) alice =
       (Raise ValueError, fs0).
Proof.
  split; [reflexivity |]. split; [reflexivity |].
  split; [reflexivity |]. split; [reflexivity |]. split.
  - exact (proj1 (upload_outside_namespace_fails module_dir fs0 upload_dir_path
                    eq_refl eq_refl (mkUploadFile "x/../bob_notes.txt" hi) alice
                    eq_refl eq_refl)).
  - split; [reflexivity |].
    exact (proj1 (upload_outside_namespace_fails module_dir fs0 upload_dir_path
                    eq_refl eq_refl (mkUploadFile (String "/" nul_name) hi) alice
                    eq_refl eq_refl)).
Defined.

(** C3 as stated fails. For alice the name [x/../bob_notes.txt] would
    resolve to [bob_notes.txt], in bob's namespace: the upload fails, but
    with the [OSError] of [open], which is no [HTTPException] at all. And
    for the user [../alice] the name [x.txt] resolves outside the upload
    directory: the upload succeeds and writes [alice_x.txt] next to it. *)
Lemma upload_traversal_counterexample :
  (normpath [] (split_slash (file_location module_dir "alice" "x/../bob_notes.txt")) =
     upload_dir_path ++ ["bob_notes.txt"]
   /\ resolves_outside module_dir "alice" "x/../bob_notes.txt" = true
   /\ upload_file module_dir fs0 (mkUploadFile "x/../bob_notes.txt" hi) alice =
        (Raise OSError, fs0)
   /\ forall e, (upload_file module_dir fs0 (mkUploadFile "x/../bob_notes.txt" hi) alice).1
                <> Raise (HTTPExc e))
  /\ (let mallory := mkUser "../alice" (hash "s4lt" "pw-m") in
      let r := upload_file module_dir fs0 (mkUploadFile "x.txt" hi) mallory in
      resolves_outside module_dir "../alice" "x.txt" = true
      /\ r.1 = Return (mkUploadInfo "File 'x.txt' saved." "../alice")
      /\ r.2 !! ["srv"; "secure_upload_backend"; "alice_x.txt"] = Some (IFile hi)
      /\ fs0 !! ["srv"; "secure_upload_backend"; "alice_x.txt"] = None).
Proof.
  split.
  - split; [reflexivity |]. split; [reflexivity |].
    split; [reflexivity |]. intros e. discriminate.
  - vm_compute. done.
Qed.

End Scenarios.

(** * Further properties of the authentication handlers *)

Section AuthExtras.

Context `{AuthEnv}.

Implicit Types (db : users_db) (u : UserCreate) (salt token : string) (now : Z).

Lemma register_lookup_Some db salt u k r :
  db !! k = Some r -> (register db salt u).2 !! k = Some r.
Proof.
  intros Hk. destruct (register_cases db salt u)
    as [[_ ->] | [(_ & _ & ->) | (Hout & _ & ->)]]; simpl.
  - done.
  - done.
  - rewrite lookup_insert_ne; [done |]. intros <-. congruence.
Qed.

Lemma register_lookup_other db salt u k :
  k <> username u -> (register db salt u).2 !! k = db !! k.
Proof.
  intros Hk. destruct (register_cases db salt u)
    as [[_ ->] | [(_ & _ & ->) | (_ & _ & ->)]]; simpl; try done.
  by rewrite lookup_insert_ne.
Qed.

(** X1: [register] never removes or changes a record that is in the
    store, whether it succeeds or fails. *)
Theorem register_keeps_records db salt u k r :
  db !! k = Some r -> (register db salt u).2 !! k = Some r.
Proof. apply register_lookup_Some. Qed.

(** X21: a registration, successful or not, does not disturb the users
    that are in the store: their logins have the outcome they had, and a
    token that authenticated still authenticates as the same record. *)
Theorem register_leaves_existing_users db salt u :
  (forall name pw now,
     is_Some (db !! name) ->
     login (register db salt u).2 name pw now = login db name pw now)
  /\ (forall token now r,
        get_current_user db token now = Return r ->
        get_current_user (register db salt u).2 token now = Return r).
Proof.
  split.
  - intros name pw now [r Hr]. unfold login.
    by rewrite (register_lookup_Some _ salt u _ _ Hr), Hr.
  - intros token now r. unfold get_current_user.
    destruct (jwt_decode token SECRET_KEY [ALGORITHM] now) as [? | payload]; [done |].
    destruct (payload !! "sub") as [[sub | z |] |]; try done.
    destruct (db !! sub) as [r' |] eqn:E; [| done].
    intros [= ->]. by rewrite (register_lookup_Some _ salt u _ _ E).
Qed.

(** The outcome of a registration depends on the store through the
    presence of its user name only, and so does the record it adds. *)
Lemma register_shape db salt u :
  exists (o : result string) (added : option user),
    forall db', db' !! username u = db !! username u ->
      register db' salt u =
        (o, match added with
            | Some r => <[username u := r]> db'
            | None => db'
            end).
Proof.
  unfold register. destruct (db !! username u) as [r |] eqn:E.
  - exists (Raise (HTTPExc username_taken)), None. intros db' ->.
    by rewrite bool_decide_eq_true_2.
  - destruct (get_password_hash salt (password u)) as [hashed | e].
    + exists (Return registered), (Some (mkUser (username u) hashed)).
      intros db' ->. rewrite bool_decide_eq_false_2; [done | by intros [? ?]].
    + exists (Raise e), None. intros db' ->.
      rewrite bool_decide_eq_false_2; [done | by intros [? ?]].
Qed.

(** X22: registrations under different user names do not interfere: each
    has the outcome it would have had alone, and the two orders leave the
    same store. *)
Theorem register_commutes db salt1 salt2 u1 u2 :
  username u1 <> username u2 ->
  (register (register db salt1 u1).2 salt2 u2).1 = (register db salt2 u2).1
  /\ (register (register db salt2 u2).2 salt1 u1).1 = (register db salt1 u1).1
  /\ (register (register db salt1 u1).2 salt2 u2).2 =
       (register (register db salt2 u2).2 salt1 u1).2.
Proof.
  intros Hne.
  destruct (register_shape db salt1 u1) as (o1 & a1 & R1).
  destruct (register_shape db salt2 u2) as (o2 & a2 & R2).
  rewrite (R1 db eq_refl), (R2 db eq_refl). simpl.
  rewrite R2, R1; simpl.
  - split; [done |]. split; [done |].
    destruct a1 as [r1 |], a2 as [r2 |]; try done.
    by apply insert_insert_ne.
  - destruct a2; [by rewrite lookup_insert_ne | done].
  - destruct a1; [by rewrite lookup_insert_ne | done].
Qed.

(** X2: after a registration request with a password of at most 4096
    characters, which either registers the user name or finds it taken,
    registering the same user name again fails with "Username already
    registered" and leaves the store of the first request, whatever the
    second password and the salts are. *)
Theorem register_twice db salt1 salt2 u password2 :
  Z.of_nat (py_len (password u)) <= MAX_PASSWORD_SIZE ->
  let db1 := (register db salt1 u).2 in
  register db1 salt2 (mkUserCreate (username u) password2) =
    (Raise (HTTPExc username_taken), db1).
Proof.
  intros Hfit db1. apply register_present. simpl. subst db1.
  destruct (register_cases db salt1 u)
    as [[Hin ->] | [(_ & Hlong & _) | (_ & _ & ->)]]; simpl.
  - done.
  - lia.
  - rewrite lookup_insert_eq. by eexists.
Qed.

(** [register] keeps every record under its own user name. *)
Lemma register_consistent db salt u :
  store_consistent db -> store_consistent (register db salt u).2.
Proof.
  intros Hc. destruct (register_cases db salt u)
    as [[_ ->] | [(_ & _ & ->) | (_ & _ & ->)]]; simpl.
  - done.
  - done.
  - intros k r. destruct (decide (k = username u)) as [-> |].
    + rewrite lookup_insert_eq. by intros [= <-].
    + rewrite lookup_insert_ne by done. apply Hc.
Qed.

Lemma register_all_consistent db requests :
  store_consistent db -> store_consistent (register_all db requests).
Proof.
  revert db. induction requests as [| req requests IH]; intros db Hc; simpl.
  - done.
  - apply IH. by apply register_consistent.
Qed.

(** X3: in the store that any sequence of registrations builds from the
    empty store, every record lies under its own user name. *)
Theorem registered_store_consistent requests :
  store_consistent (register_all ∅ requests).
Proof. apply register_all_consistent. intros k r. by rewrite lookup_empty. Qed.

Lemma login_Return_inv db name pw now t :
  login db name pw now = Return t ->
  exists r, db !! name = Some r
            /\ verify_password pw (hashed_password r) = Return true
            /\ t = mkToken
                     (create_access_token {["sub" := CStr (user_username r)]}
                        None now)
                     "bearer".
Proof.
  unfold login. destruct (db !! name) as [r |]; [| done].
  destruct (verify_password pw (hashed_password r)) as [[] | e] eqn:V; simpl;
    [| done | done].
  intros [= <-]. by exists r.
Qed.

Lemma login_Raise_inv db name pw now e :
  login db name pw now = Raise e ->
  e = HTTPExc login_exception
  \/ (e = PasswordSizeError
      /\ is_Some (db !! name)
      /\ MAX_PASSWORD_SIZE < Z.of_nat (py_len pw)).
Proof.
  unfold login. destruct (db !! name) as [r |]; [| intros [= <-]; by left].
  unfold verify_password. case_bool_decide as Hlong; simpl.
  - intros [= <-]. right. split; [done |]. split; [by eexists | done].
  - destruct (pwd_context_verify pw (hashed_password r)); simpl; [done |].
    intros [= <-]. by left.
Qed.

Lemma get_current_user_Raise_inv db token now e :
  get_current_user db token now = Raise e -> e = HTTPExc credentials_exception.
Proof.
  unfold get_current_user.
  destruct (jwt_decode token SECRET_KEY [ALGORITHM] now) as [? | payload];
    [by intros [= <-] |].
  destruct (payload !! "sub") as [[sub | z |] |]; try by intros [= <-].
  destruct (db !! sub) as [r |]; [done | by intros [= <-]].
Qed.

(** X4: [login] returns a token exactly when the user name is in the
    store and [verify_password] returns true for the password and the
    stored hash; the token then has type "bearer" and names the stored
    record as its subject. When it raises, it is the one 401 exception,
    or the [PasswordSizeError] of [verify_password], which happens for a
    stored user name and a password of more than 4096 characters only:
    for a shorter password every failure is the 401. *)
Theorem login_outcomes db name pw now :
  (forall t,
     login db name pw now = Return t <->
     exists r, db !! name = Some r
               /\ verify_password pw (hashed_password r) = Return true
               /\ t = mkToken
                        (create_access_token {["sub" := CStr (user_username r)]}
                           None now)
                        "bearer")
  /\ (forall e,
        login db name pw now = Raise e ->
        e = HTTPExc login_exception
        \/ (e = PasswordSizeError
            /\ is_Some (db !! name)
            /\ MAX_PASSWORD_SIZE < Z.of_nat (py_len pw))).
Proof.
  split.
  - intros t. split; [apply login_Return_inv |].
    intros (r & Hr & V & ->). by apply login_right_password.
  - apply login_Raise_inv.
Qed.

(** X5: [get_current_user] returns records of the store only, and every
    failure, whatever its cause, is the same 401 exception. *)
Theorem get_current_user_outcomes db token now :
  (exists k r, db !! k = Some r /\ get_current_user db token now = Return r)
  \/ get_current_user db token now = Raise (HTTPExc credentials_exception).
Proof.
  unfold get_current_user.
  destruct (jwt_decode token SECRET_KEY [ALGORITHM] now) as [e | payload]; [by right |].
  destruct (payload !! "sub") as [[sub | z |] |]; try by right.
  destruct (db !! sub) as [r |] eqn:E; [| by right].
  left. by exists sub, r.
Qed.

(** X6: a token that decodes but carries no subject, a null subject or a
    subject that is no string is refused, whoever is in the store. *)
Theorem get_current_user_without_subject db token now payload :
  jwt_decode token SECRET_KEY [ALGORITHM] now = inr payload ->
  (forall sub, payload !! "sub" <> Some (CStr sub)) ->
  get_current_user db token now = Raise (HTTPExc credentials_exception).
Proof.
  intros Hdec Hsub. unfold get_current_user. rewrite Hdec.
  destruct (payload !! "sub") as [[sub | z |] |]; try done.
  by destruct (Hsub sub).
Qed.

(** X7: with a codec that accepts its tokens before their expiry and
    refuses them after it, a token issued for a stored user with a
    time-to-live other than zero is accepted at every instant before
    issue time plus time-to-live and refused at every instant after it;
    with a negative time-to-live it is refused at every instant from the
    issue on. *)
Theorem token_lifetime db name r d now now' :
  jwt_expiry ->
  d <> 0 ->
  db !! name = Some r ->
  let token := create_access_token {["sub" := CStr name]} (Some d) now in
  (now' < now + d -> get_current_user db token now' = Return r)
  /\ (now + d < now' ->
        get_current_user db token now' = Raise (HTTPExc credentials_exception)).
Proof.
  intros Hex Hd Hr token. subst token.
  assert (expiry_of (Some d) now = now + d) as Hexp.
  { simpl. by rewrite bool_decide_eq_false_2. }
  split; intros Hnow.
  - apply get_current_user_before_expiry; [done | by rewrite Hexp | done].
  - apply get_current_user_after_expiry; [done | by rewrite Hexp].
Qed.

(** X8: with such a codec, the token of a successful login on a store in
    which every record lies under its own user name authenticates as the
    user who logged in during the 30 minutes after the login, and as
    nobody once they are over. *)
Theorem login_token_lifetime db name pw now tok now' :
  jwt_expiry ->
  store_consistent db ->
  login db name pw now = Return (mkToken tok "bearer") ->
  exists r, db !! name = Some r
    /\ user_username r = name
    /\ (now' < now + 1800 -> get_current_user db tok now' = Return r)
    /\ (now + 1800 < now' ->
          get_current_user db tok now' = Raise (HTTPExc credentials_exception)).
Proof.
  intros Hex Hc Hlogin.
  apply login_Return_inv in Hlogin as (r & Hr & _ & [= ->]).
  exists r. pose proof (Hc _ _ Hr) as Hname. rewrite Hname.
  split; [done |]. split; [done |]. split; intros Hnow.
  - by apply get_current_user_before_expiry.
  - by apply get_current_user_after_expiry.
Qed.

(** X9: with such a codec, a token that [create_access_token] makes for
    the claims of a login, a string subject, decodes before its expiry
    to that subject and the expiry the function computed, and to nothing
    else; an [exp] that the caller put into [data] is overwritten. *)
Theorem issued_token_claims name v expires_delta now now' :
  jwt_expiry ->
  now' < expiry_of expires_delta now ->
  let issued : claims :=
    <["exp" := CNum (expiry_of expires_delta now)]> {["sub" := CStr name]} in
  jwt_decode (create_access_token {["sub" := CStr name]} expires_delta now)
    SECRET_KEY [ALGORITHM] now' = inr issued
  /\ jwt_decode
       (create_access_token (<["exp" := v]> {["sub" := CStr name]}) expires_delta now)
       SECRET_KEY [ALGORITHM] now' = inr issued.
Proof.
  intros Hex Hlt issued. split.
  - by apply issued_token_accepted.
  - rewrite create_access_token_claims, insert_insert_eq.
    by apply (Hex name (expiry_of expires_delta now) now').
Qed.

End AuthExtras.

(** * Further properties of the file handlers *)

Section NameFacts.

Implicit Types (a b s n : string).

(** No field of a split contains a slash. *)
Lemma components_fields s :
  str_mem "/" (components s).1 = false
  /\ Forall (fun x => str_mem "/" x = false) (components s).2.
Proof.
  induction s as [| c s [IH1 IH2]]; simpl; [by split |].
  destruct (components s) as [h t]; simpl in *.
  destruct (Ascii.eqb c "/") eqn:Hc; simpl.
  - split; [done |]. by constructor.
  - rewrite Hc. by split.
Qed.

Lemma split_slash_fields s : Forall (fun x => str_mem "/" x = false) (split_slash s).
Proof.
  unfold split_slash. destruct (components_fields s) as [H1 H2].
  destruct (components s) as [h t]. by constructor.
Qed.

Lemma is_name_true n :
  is_name n = true <->
  n <> "" /\ n <> "." /\ n <> ".." /\ str_mem "/" n = false.
Proof.
  unfold is_name. rewrite andb_true_iff, !negb_true_iff, bool_decide_eq_false.
  split.
  - intros [Hs Hm]. repeat split; try done; intros ->; apply Hs; auto.
  - intros (H1 & H2 & H3 & Hm). split; [| done]. by intros [? | [? | ?]].
Qed.

(** Between owners without an underscore, a physical name determines
    the owner and the logical name. *)
Lemma key_owner a b s1 s2 :
  str_mem "_" a = false ->
  str_mem "_" b = false ->
  a +:+ "_" +:+ s1 = b +:+ "_" +:+ s2 ->
  a = b /\ s1 = s2.
Proof.
  revert b. induction a as [| c a IH]; intros [| c' b] Ha Hb E.
  - injection E as E. split; [done | exact E].
  - rewrite str_app_cons in E. injection E as <- _. simpl in Hb. done.
  - rewrite str_app_cons in E. injection E as -> _. simpl in Ha. done.
  - rewrite !str_app_cons in E. injection E as -> E. simpl in Ha, Hb.
    apply orb_false_iff in Ha as [_ Ha]. apply orb_false_iff in Hb as [_ Hb].
    destruct (IH b Ha Hb E) as [-> ->]. done.
Qed.

Lemma key_is_name a s :
  str_mem "/" a = false -> str_mem "/" s = false ->
  is_name (a +:+ "_" +:+ s) = true.
Proof.
  intros Ha Hs. apply is_name_true.
  destruct (key_is_a_name a s) as (H1 & H2 & H3).
  repeat split; try done.
  rewrite !str_mem_app, Ha, Hs. done.
Qed.

Lemma split_last_elem {A} (l : list A) i y : split_last l = Some (i, y) -> y ∈ l.
Proof.
  intros ->%split_last_Some. apply elem_of_app. right. by left.
Qed.

Lemma snoc_inj (d d' : path) n n' : d ++ [n] = d' ++ [n'] -> d = d' /\ n = n'.
Proof. intros E. apply app_inj_tail in E. done. Qed.

End NameFacts.

Section FileExtras.

Variable module_dir : string.

Implicit Types (fs : filesystem) (d : path) (name logical_name : string).

Lemma dir_names_ok_true fs d :
  dir_names_ok fs d = true <->
  forall n, is_Some (fs !! (d ++ [n])) -> is_name n = true.
Proof.
  unfold dir_names_ok. rewrite forallb_forall. split.
  - intros Hall n [ino Hino].
    specialize (Hall (d ++ [n])). rewrite child_name_snoc in Hall. apply Hall.
    apply list_elem_of_In, list_elem_of_fmap. exists (d ++ [n], ino).
    split; [done |]. by apply elem_of_map_to_list.
  - intros Hall k Hk. destruct (child_name d k) as [n |] eqn:E; [| done].
    apply child_name_Some in E as ->. apply Hall.
    apply list_elem_of_In, list_elem_of_fmap in Hk as ([k' ino] & Hk' & Hin).
    simpl in Hk'. subst k'. apply elem_of_map_to_list in Hin. by exists ino.
Qed.

(** What a successful write is: one entry, with a proper name, that was
    no directory, now holds the bytes. *)
Lemma fs_write_Some fs p data fs' :
  sys_open_write fs p data = Some fs' ->
  exists d n, fs' = <[d ++ [n] := IFile data]> fs
              /\ is_name n = true
              /\ fs !! (d ++ [n]) <> Some IDir.
Proof.
  unfold sys_open_write.
  destruct (split_last (split_slash p)) as [[ds n] |] eqn:E; [| done]. simpl.
  destruct (walk fs [] ds) as [d |]; [| done]. simpl.
  case_bool_decide as Hn; [done |]. case_bool_decide; [done |].
  assert (is_name n = true) as Hname.
  { apply is_name_true. repeat split; try (intros ->; apply Hn; auto).
    apply split_last_elem in E.
    pose proof (split_slash_fields p) as Hf. rewrite Forall_forall in Hf.
    by apply Hf. }
  destruct (fs !! (d ++ [n])) as [[data' |] |] eqn:F; [| done |].
  - intros [= <-]. exists d, n. by rewrite F.
  - intros [= <-]. exists d, n. by rewrite F.
Qed.

(** X10: an upload either fails and leaves the file system as it was,
    with [ValueError] when the location has a NUL byte and with [OSError]
    otherwise, or reports the file as saved for the calling user and
    writes the bytes to exactly one entry, which was no directory. It
    never removes an entry and never changes another one. *)
Theorem upload_file_effect fs file_ current_user :
  let location :=
    file_location module_dir (user_username current_user) (filename file_) in
  upload_file module_dir fs file_ current_user =
    (Raise (if str_mem NUL location then ValueError else OSError), fs)
  \/ exists k,
       fs !! k <> Some IDir
       /\ str_mem NUL location = false
       /\ upload_file module_dir fs file_ current_user =
            (Return (mkUploadInfo ("File '" +:+ filename file_ +:+ "' saved.")
                       (user_username current_user)),
             <[k := IFile (file file_)]> fs).
Proof.
  intros location. unfold upload_file. fold location.
  destruct (fs_write_cases fs location (file file_))
    as [-> | (fs' & -> & E & Hnul & _)]; [by left |].
  right. apply fs_write_Some in E as (d & n & -> & _ & Hnd). by exists (d ++ [n]).
Qed.

Lemma fs_write_names_ok fs p data fs' d :
  sys_open_write fs p data = Some fs' ->
  dir_names_ok fs d = true -> dir_names_ok fs' d = true.
Proof.
  intros (d0 & n0 & -> & Hname & _)%fs_write_Some Hok.
  apply dir_names_ok_true. intros n.
  destruct (decide (d0 ++ [n0] = d ++ [n])) as [E |].
  - apply snoc_inj in E as [_ <-]. done.
  - rewrite lookup_insert_ne by done. by apply dir_names_ok_true.
Qed.

Lemma upload_file_ok fs d file_ current_user :
  upload_dir_ok module_dir fs d ->
  upload_dir_ok module_dir (upload_file module_dir fs file_ current_user).2 d.
Proof.
  intros (Hd & Hflat & Hnames).
  destruct (upload_file_keeps_dir module_dir fs d Hd Hflat file_ current_user)
    as [Hd' Hflat'].
  split; [done |]. split; [done |].
  unfold upload_file.
  destruct (fs_write_cases fs
              (file_location module_dir (user_username current_user) (filename file_))
              (file file_)) as [-> | (fs' & -> & E & _)]; simpl; [done |].
  by apply (fs_write_names_ok _ _ _ _ _ E).
Qed.

(** X11: whatever is uploaded, by whom and under which name, the upload
    directory stays a directory that holds properly named files only. *)
Theorem upload_file_keeps_upload_dir fs d file_ current_user :
  upload_dir_ok module_dir fs d ->
  upload_dir_ok module_dir (upload_file module_dir fs file_ current_user).2 d.
Proof. apply upload_file_ok. Qed.

(** *** Sizes and listings *)

Lemma fs_stat_child fs d n ino :
  fs_stat fs (UPLOAD_DIR module_dir) = Some (d, IDir) ->
  is_name n = true ->
  fs !! (d ++ [n]) = Some ino ->
  fs_stat fs (os_path_join (UPLOAD_DIR module_dir) n) = Some (d ++ [n], ino).
Proof.
  intros Hd (H1 & H2 & H3 & Hm)%is_name_true Hino.
  rewrite os_path_join_relative by by apply not_absolute.
  unfold fs_stat.
  rewrite bool_decide_eq_false_2 by by apply str_app_ne_nil.
  rewrite split_slash_app_slash. unfold split_slash at 2.
  rewrite components_no_slash by done.
  rewrite split_last_snoc. simpl.
  rewrite (fs_stat_dir_walk _ _ _ Hd). simpl.
  rewrite bool_decide_eq_false_2 by (intros [? | ?]; done).
  rewrite bool_decide_eq_false_2 by done.
  by rewrite Hino.
Qed.

Lemma os_path_getsize_child fs d n ino :
  fs_stat fs (UPLOAD_DIR module_dir) = Some (d, IDir) ->
  is_name n = true ->
  fs !! (d ++ [n]) = Some ino ->
  os_path_getsize fs (os_path_join (UPLOAD_DIR module_dir) n) = Return (inode_size ino).
Proof.
  intros Hd Hn Hino. unfold os_path_getsize.
  rewrite (fs_stat_child _ _ _ _ Hd Hn Hino). by destruct ino.
Qed.

Lemma list_files_loop_exact fs d name names files :
  fs_stat fs (UPLOAD_DIR module_dir) = Some (d, IDir) ->
  (forall n, n ∈ names -> is_Some (fs !! (d ++ [n])) /\ is_name n = true) ->
  list_files_loop module_dir fs name names files =
    Return (files ++ omap (entry_of fs d name) names).
Proof.
  intros Hd. revert files.
  induction names as [| fn names IH]; intros files Hnames; simpl.
  - by rewrite app_nil_r.
  - destruct (Hnames fn) as [[ino Hino] Hname]; [by left |].
    unfold entry_of at 1.
    destruct (str_startswith (name +:+ "_") fn) eqn:Hp.
    + rewrite (os_path_getsize_child _ _ _ _ Hd Hname Hino).
      cbn [mbind result_bind]. rewrite Hino. simpl.
      rewrite IH by (intros n Hn; apply Hnames; by right).
      by rewrite <- app_assoc.
    + apply IH. intros n Hn. apply Hnames. by right.
Qed.

Lemma list_files_returns fs d current_user :
  upload_dir_ok module_dir fs d ->
  exists names,
    (forall n, n ∈ names <-> is_Some (fs !! (d ++ [n])))
    /\ list_files module_dir fs current_user =
         Return (omap (entry_of fs d (user_username current_user)) names).
Proof.
  intros (Hd & _ & Hnames). unfold list_files, os_path_exists.
  rewrite bool_decide_eq_true_2 by (rewrite Hd; by eexists).
  destruct (os_listdir fs (UPLOAD_DIR module_dir)) as [names |] eqn:Hls.
  - apply os_listdir_names in Hls as (d' & Hd' & Hin).
    rewrite Hd in Hd'. injection Hd' as <-.
    exists names. split; [done |]. cbn [mbind result_bind].
    apply (list_files_loop_exact _ d _ names [] Hd).
    intros n Hn%Hin. split; [done |].
    by apply (proj1 (dir_names_ok_true fs d) Hnames).
  - unfold os_listdir in Hls. by rewrite Hd in Hls.
Qed.

Lemma entry_of_Some fs d name filename e :
  entry_of fs d name filename = Some e <->
  filename = name +:+ "_" +:+ entry_name e
  /\ exists ino, fs !! (d ++ [filename]) = Some ino /\ entry_size e = inode_size ino.
Proof.
  unfold entry_of. split.
  - destruct (str_startswith (name +:+ "_") filename) eqn:Hp; [| done].
    destruct (fs !! (d ++ [filename])) as [ino |]; [| done]. simpl.
    intros [= <-]. simpl. split; [| by exists ino].
    apply str_startswith_drop in Hp.
    rewrite str_length_app in Hp. simpl in Hp.
    by rewrite str_app_assoc in Hp.
  - intros [-> (ino & Hino & Hsz)].
    assert (str_startswith (name +:+ "_") (name +:+ "_" +:+ entry_name e) = true)
      as -> by (rewrite <- str_app_assoc; apply str_startswith_app).
    rewrite Hino. simpl.
    assert (str_drop (String.length name + 1) (name +:+ "_" +:+ entry_name e)
            = entry_name e) as ->.
    { rewrite <- str_app_assoc.
      replace (String.length name + 1)%nat with (String.length (name +:+ "_"))
        by by rewrite str_length_app.
      apply str_drop_app. }
    destruct e; simpl in *. by rewrite Hsz.
Qed.

Lemma list_files_members fs d current_user :
  upload_dir_ok module_dir fs d ->
  exists l,
    list_files module_dir fs current_user = Return l
    /\ forall name size_,
         mkFileEntry name size_ ∈ l <->
         exists data,
           fs !! (d ++ [user_username current_user +:+ "_" +:+ name]) = Some (IFile data)
           /\ size_ = Z.of_nat (length data).
Proof.
  intros Hok. destruct (list_files_returns fs d current_user Hok) as (names & Hin & ->).
  destruct Hok as (_ & Hflat & _).
  eexists. split; [done |]. intros name size_.
  rewrite list_elem_of_omap. split.
  - intros (fn & _ & (-> & ino & Hino & Hsz)%entry_of_Some). simpl in *.
    destruct ino as [data |].
    + by exists data.
    + by apply (has_subdir_false _ _ _ Hflat) in Hino.
  - intros (data & Hdata & ->).
    exists (user_username current_user +:+ "_" +:+ name). split.
    + apply Hin. by eexists.
    + apply entry_of_Some. split; [done |]. by exists (IFile data).
Qed.

(** X12: when the upload directory is in order, [list_files] returns,
    and an entry with a name and a size is in the listing exactly when
    the upload directory holds a file called [username_name] with that
    many bytes. *)
Theorem list_files_exact fs d current_user :
  upload_dir_ok module_dir fs d ->
  exists l,
    list_files module_dir fs current_user = Return l
    /\ forall name size_,
         mkFileEntry name size_ ∈ l <->
         exists data,
           fs !! (d ++ [user_username current_user +:+ "_" +:+ name]) = Some (IFile data)
           /\ size_ = Z.of_nat (length data).
Proof. apply list_files_members. Qed.

Lemma NoDup_omap_inj {A B} (f : A -> option B) (l : list A) :
  (forall x y z, f x = Some z -> f y = Some z -> x = y) ->
  NoDup l -> NoDup (omap f l).
Proof.
  intros Hinj. induction 1 as [| x l Hx Hl IH]; simpl; [constructor |].
  destruct (f x) as [z |] eqn:E; [| done].
  constructor; [| done].
  intros (y & Hy & Hfy)%list_elem_of_omap.
  by rewrite (Hinj x y z E Hfy) in Hx.
Qed.

Lemma os_listdir_NoDup fs p names : os_listdir fs p = Return names -> NoDup names.
Proof.
  unfold os_listdir. destruct (fs_stat fs p) as [[d [data |]] |]; try done.
  intros [= <-]. apply NoDup_omap_inj; [| apply NoDup_fst_map_to_list].
  intros k k' n ->%child_name_Some ->%child_name_Some. done.
Qed.

(** X13: when the upload directory is in order, no entry is listed
    twice. *)
Theorem list_files_no_duplicates fs d current_user l :
  upload_dir_ok module_dir fs d ->
  list_files module_dir fs current_user = Return l ->
  NoDup l.
Proof.
  intros Hok Hl. pose proof Hok as (Hd & _ & Hnames).
  unfold list_files, os_path_exists in Hl.
  rewrite bool_decide_eq_true_2 in Hl by (rewrite Hd; by eexists).
  destruct (os_listdir fs (UPLOAD_DIR module_dir)) as [names |] eqn:Hls; [| done].
  cbn [mbind result_bind] in Hl.
  pose proof (os_listdir_NoDup _ _ _ Hls) as Hnd.
  apply os_listdir_names in Hls as (d' & Hd' & Hin).
  rewrite Hd in Hd'. injection Hd' as <-.
  rewrite (list_files_loop_exact _ d _ names [] Hd) in Hl.
  - injection Hl as <-. simpl. apply NoDup_omap_inj; [| done].
    intros fn fn' e [-> _]%entry_of_Some [-> _]%entry_of_Some. done.
  - intros n Hn%Hin. split; [done |].
    by apply (proj1 (dir_names_ok_true fs d) Hnames).
Qed.

(** *** Uploads and listings together *)

Lemma upload_file_flat_ok fs d file_ current_user :
  upload_dir_ok module_dir fs d ->
  str_mem "/" (user_username current_user) = false ->
  str_mem "/" (filename file_) = false ->
  name_fits module_dir (user_username current_user) (filename file_) = true ->
  upload_file module_dir fs file_ current_user =
    (Return (mkUploadInfo ("File '" +:+ filename file_ +:+ "' saved.")
               (user_username current_user)),
     <[d ++ [user_username current_user +:+ "_" +:+ filename file_]
         := IFile (file file_)]> fs).
Proof. intros (Hd & Hflat & _). by apply upload_file_flat. Qed.

(** The uploads of a user without a slash in the name, by cases. *)
Lemma upload_file_cases fs d file_ current_user :
  upload_dir_ok module_dir fs d ->
  str_mem "/" (user_username current_user) = false ->
  (str_mem "/" (filename file_) = false
   /\ name_fits module_dir (user_username current_user) (filename file_) = true
   /\ upload_file module_dir fs file_ current_user =
        (Return (mkUploadInfo ("File '" +:+ filename file_ +:+ "' saved.")
                   (user_username current_user)),
         <[d ++ [user_username current_user +:+ "_" +:+ filename file_]
             := IFile (file file_)]> fs))
  \/ upload_file module_dir fs file_ current_user =
       (Raise (open_error
                 (file_location module_dir (user_username current_user)
                    (filename file_))),
        fs).
Proof.
  intros Hok Hu. pose proof Hok as (Hd & Hflat & _).
  destruct (str_mem "/" (filename file_)) eqn:Hf.
  - right. apply (upload_file_refused module_dir fs d Hd Hflat); auto.
  - destruct (name_fits module_dir (user_username current_user) (filename file_))
      eqn:Hfit.
    + left. split; [done |]. split; [done |]. by apply upload_file_flat_ok.
    + right. apply (upload_file_refused module_dir fs d Hd Hflat); auto.
Qed.

(** X14: when the upload directory is in order, an upload by a user
    without a slash in the name, under a file name without a slash, that
    passes the checks of [open] (no NUL byte in the location, a location
    of less than 4096 bytes and a physical name of at most 255),
    succeeds, and the user's listing afterwards is the listing before
    with the entry of that name replaced by one with the number of bytes
    that were sent: the other entries are as they were. *)
Theorem upload_then_list fs d file_ current_user :
  upload_dir_ok module_dir fs d ->
  str_mem "/" (user_username current_user) = false ->
  str_mem "/" (filename file_) = false ->
  name_fits module_dir (user_username current_user) (filename file_) = true ->
  let r := upload_file module_dir fs file_ current_user in
  r.1 = Return (mkUploadInfo ("File '" +:+ filename file_ +:+ "' saved.")
                  (user_username current_user))
  /\ exists l l',
       list_files module_dir fs current_user = Return l
       /\ list_files module_dir r.2 current_user = Return l'
       /\ forall e,
            e ∈ l' <->
            e = mkFileEntry (filename file_) (Z.of_nat (length (file file_)))
            \/ (e ∈ l /\ entry_name e <> filename file_).
Proof.
  intros Hok Hu Hf Hfit r.
  pose proof (upload_file_ok fs d file_ current_user Hok) as Hok'.
  subst r. rewrite (upload_file_flat_ok fs d file_ current_user Hok Hu Hf Hfit) in *.
  simpl in *. split; [done |].
  destruct (list_files_members _ d current_user Hok) as (l & Hl & Hin).
  destruct (list_files_members _ d current_user Hok') as (l' & Hl' & Hin').
  exists l, l'. split; [done |]. split; [done |].
  intros [name size_]. rewrite Hin, Hin'. simpl.
  destruct (decide (name = filename file_)) as [-> | Hne].
  - rewrite lookup_insert_eq. split.
    + intros (data & [= <-] & ->). by left.
    + intros [[= ->] | [_ ?]]; [| done]. by exists (file file_).
  - rewrite lookup_insert_ne
      by (intros [_ E]%snoc_inj; by apply String.app_inj, String.app_inj in E).
    split.
    + intros Hdata. by right.
    + intros [[= ? _] | [Hdata _]]; done.
Qed.

(** X23: when the upload directory is in order, an upload by a user
    without a slash in the name changes no entry of the file system other
    than [username_filename] in the upload directory, whatever the file
    name is. *)
Theorem upload_confined fs d file_ current_user k :
  upload_dir_ok module_dir fs d ->
  str_mem "/" (user_username current_user) = false ->
  (upload_file module_dir fs file_ current_user).2 !! k <> fs !! k ->
  k = d ++ [user_username current_user +:+ "_" +:+ filename file_]
  /\ str_mem "/" (filename file_) = false.
Proof.
  intros Hok Hu.
  destruct (upload_file_cases fs d file_ current_user Hok Hu)
    as [(Hf & _ & ->) | ->]; simpl; [| done].
  intros Hk. split; [| done].
  destruct (decide (d ++ [user_username current_user +:+ "_" +:+ filename file_] = k))
    as [<- | Hne]; [done |].
  by rewrite lookup_insert_ne in Hk.
Qed.

(** X15: uploading under the same name again replaces the file: two
    uploads of one user under one name leave the file system that the
    second upload alone would have left. *)
Theorem upload_twice_overwrites fs d file1 file2 current_user :
  upload_dir_ok module_dir fs d ->
  str_mem "/" (user_username current_user) = false ->
  str_mem "/" (filename file1) = false ->
  filename file2 = filename file1 ->
  upload_file module_dir (upload_file module_dir fs file1 current_user).2
    file2 current_user =
  upload_file module_dir fs file2 current_user.
Proof.
  intros Hok Hu Hf Hsame.
  pose proof (upload_file_ok fs d file1 current_user Hok) as Hok'.
  destruct (upload_file_cases fs d file1 current_user Hok Hu)
    as [(_ & Hfit & E1) | E1]; rewrite E1 in *; simpl in *; [| done].
  assert (str_mem "/" (filename file2) = false) as Hf2 by by rewrite Hsame.
  assert (name_fits module_dir (user_username current_user) (filename file2) = true)
    as Hfit2 by by rewrite Hsame.
  rewrite (upload_file_flat_ok _ d file2 current_user Hok' Hu Hf2 Hfit2).
  rewrite (upload_file_flat_ok fs d file2 current_user Hok Hu Hf2 Hfit2).
  by rewrite Hsame, insert_insert_eq.
Qed.

(** X16: between users without an underscore in their names, uploads do
    not show in each other's listings: whatever such a user uploads, the
    listing of another such user has the entries it had before. *)
Theorem upload_leaves_other_listing fs d file_ uploader other :
  upload_dir_ok module_dir fs d ->
  str_mem "/" (user_username uploader) = false ->
  str_mem "_" (user_username uploader) = false ->
  str_mem "_" (user_username other) = false ->
  user_username other <> user_username uploader ->
  let fs' := (upload_file module_dir fs file_ uploader).2 in
  exists l l',
    list_files module_dir fs other = Return l
    /\ list_files module_dir fs' other = Return l'
    /\ forall e, e ∈ l' <-> e ∈ l.
Proof.
  intros Hok Hslash Hu Ho Hne fs'.
  pose proof (upload_file_ok fs d file_ uploader Hok) as Hok'. fold fs' in Hok'.
  destruct (list_files_members _ d other Hok) as (l & Hl & Hin).
  destruct (list_files_members _ d other Hok') as (l' & Hl' & Hin').
  exists l, l'. split; [done |]. split; [done |].
  intros [name size_]. rewrite Hin, Hin'. subst fs'.
  destruct (upload_file_cases fs d file_ uploader Hok Hslash)
    as [(_ & _ & ->) | ->]; simpl; [| done].
  rewrite lookup_insert_ne; [done |].
  intros [_ E]%snoc_inj. by apply key_owner in E as [E _].
Qed.

(** X17: for owners without an underscore in their names, which do not
    start with a slash, the location of a file determines its owner and
    its logical name. *)
Theorem file_location_injective name1 name2 logical_name1 logical_name2 :
  str_startswith "/" name1 = false ->
  str_startswith "/" name2 = false ->
  str_mem "_" name1 = false ->
  str_mem "_" name2 = false ->
  file_location module_dir name1 logical_name1 =
    file_location module_dir name2 logical_name2 ->
  name1 = name2 /\ logical_name1 = logical_name2.
Proof.
  intros H1 H2 Hu1 Hu2. unfold file_location.
  rewrite !os_path_join_relative by by apply key_relative.
  intros E. apply String.app_inj in E. injection E as E.
  by apply key_owner in E.
Qed.

(** X18: when the upload directory does not exist, a listing is empty
    and an upload by a user whose name does not start with a slash fails
    without creating anything: with [ValueError] when the location has a
    NUL byte and with [OSError] otherwise. *)
Theorem upload_dir_missing fs file_ current_user :
  fs_stat fs (UPLOAD_DIR module_dir) = None ->
  list_files module_dir fs current_user = Return []
  /\ (str_startswith "/" (user_username current_user) = false ->
      let location :=
        file_location module_dir (user_username current_user) (filename file_) in
      upload_file module_dir fs file_ current_user =
        (Raise (if str_mem NUL location then ValueError else OSError), fs)).
Proof.
  intros Hnone. split.
  - unfold list_files, os_path_exists.
    rewrite bool_decide_eq_false_2; [done |]. rewrite Hnone. by intros [? ?].
  - intros Hrel location. unfold upload_file. fold location.
    rewrite fs_write_None; [done |].
    unfold location, file_location, sys_open_write.
    rewrite os_path_join_relative by by apply key_relative.
    rewrite split_slash_app_slash.
    destruct (split_slash_cons (user_username current_user +:+ "_" +:+ filename file_))
      as (c & cs & ->).
    destruct (split_last_cons_is_Some c cs) as [[i y] Hiy].
    rewrite (split_last_app _ _ _ _ Hiy). simpl. rewrite walk_app.
    destruct (walk fs [] (split_slash (UPLOAD_DIR module_dir))) as [d |] eqn:W; [| done].
    apply walk_fs_stat_dir in W; [congruence | apply upload_dir_shape].
Qed.

End FileExtras.

(** * The protected routes *)

Section RouteTheorems.

Context `{AuthEnv}.

Variable module_dir : string.

Implicit Types (db : users_db) (fs : filesystem) (token : string) (now : Z).

(** X19: a request whose token does not authenticate is answered with
    the 401 of [get_current_user] by both protected routes: nothing is
    written and nothing is listed. *)
Theorem routes_refuse_unauthenticated db fs token now file_ :
  (forall r, get_current_user db token now <> Return r) ->
  upload_file_route module_dir db fs token now file_ =
    (Raise (HTTPExc credentials_exception), fs)
  /\ list_files_route module_dir db fs token now =
       Raise (HTTPExc credentials_exception).
Proof.
  intros Hno. unfold upload_file_route, list_files_route.
  destruct (get_current_user db token now) as [r | e] eqn:E.
  - by destruct (Hno r).
  - apply get_current_user_Raise_inv in E as ->. done.
Qed.

(** X20: the whole path of the backend test, for every library that
    verifies the hashes it makes and honours the expiry, for a user name
    that is not in the store and without a slash, a password of at most
    4096 characters, a file name without a slash, a location that passes
    the checks of [open] (no NUL byte, less than 4096 bytes, a physical
    name of at most 255) and an upload directory in order: the login
    after the registration returns a token; with it, an upload within 30
    minutes of the login succeeds for that user, and a later listing
    within the same 30 minutes shows the file with its size. *)
Theorem register_login_upload_list db fs d salt u now now1 now2 file_ :
  hash_verifies ->
  jwt_expiry ->
  db !! username u = None ->
  Z.of_nat (py_len (password u)) <= MAX_PASSWORD_SIZE ->
  str_mem "/" (username u) = false ->
  str_mem "/" (filename file_) = false ->
  name_fits module_dir (username u) (filename file_) = true ->
  upload_dir_ok module_dir fs d ->
  now1 < now + 1800 ->
  now2 < now + 1800 ->
  let db' := (register db salt u).2 in
  exists tok,
    login db' (username u) (password u) now = Return (mkToken tok "bearer")
    /\ let r := upload_file_route module_dir db' fs tok now1 file_ in
       r.1 = Return (mkUploadInfo ("File '" +:+ filename file_ +:+ "' saved.")
                       (username u))
       /\ exists l,
            list_files_route module_dir db' r.2 tok now2 = Return l
            /\ mkFileEntry (filename file_) (Z.of_nat (length (file file_))) ∈ l.
Proof.
  intros Hhash Hex Hout Hpw Hu Hf Hfit Hok Hn1 Hn2 db'. subst db'.
  rewrite register_absent by done. simpl.
  set (r := mkUser (username u) (pwd_context_hash salt (password u))).
  set (db' := <[username u := r]> db).
  assert (db' !! username u = Some r) as Hr by apply lookup_insert_eq.
  eexists. split.
  - apply (login_right_password db' _ _ _ r Hr).
    rewrite verify_password_fits by done. f_equal. by apply Hhash.
  - assert (forall now', now' < now + 1800 ->
              get_current_user db'
                (create_access_token {["sub" := CStr (user_username r)]} None now) now'
              = Return r) as Hauth.
    { intros now' Hlt. by apply get_current_user_before_expiry. }
    unfold upload_file_route, list_files_route.
    rewrite !Hauth by done. cbn [mbind result_bind].
    pose proof (upload_file_ok module_dir fs d file_ r Hok) as Hok'.
    rewrite (upload_file_flat_ok module_dir fs d file_ r Hok Hu Hf Hfit) in *.
    simpl in *. split; [done |].
    destruct (list_files_members module_dir _ d r Hok') as (l & Hl & Hin).
    exists l. split; [done |]. apply Hin.
    exists (file file_). by rewrite lookup_insert_eq.
Qed.

End RouteTheorems.

(** * The further properties on concrete requests *)

Section ExtraScenarios.

Import Reference Fixtures.

#[local] Existing Instance env.

Lemma reference_upload_dir_ok : upload_dir_ok module_dir fs0 upload_dir_path.
Proof. repeat split; reflexivity. Qed.

Lemma fs1_upload_dir_ok : upload_dir_ok module_dir fs1 upload_dir_path.
Proof. repeat split; reflexivity. Qed.

Lemma db_bob_consistent : store_consistent db_bob.
Proof.
  intros k r Hk. unfold db_bob in Hk.
  apply lookup_singleton_Some in Hk as [<- <-]. reflexivity.
Qed.

Lemma register_keeps_records_witness :
  db_bob !! "bob" = Some bob
  /\ (register db_bob "s4lt" (mkUserCreate "bob" "other")).2 !! "bob" = Some bob
  /\ (register db_bob "s4lt" (mkUserCreate "alice" "pw123")).2 !! "bob" = Some bob.
Proof.
  split; [reflexivity |]. split.
  - exact (register_keeps_records db_bob "s4lt" (mkUserCreate "bob" "other")
             "bob" bob eq_refl).
  - exact (register_keeps_records db_bob "s4lt" (mkUserCreate "alice" "pw123")
             "bob" bob eq_refl).
Defined.

Lemma register_commutes_witness :
  let u1 := mkUserCreate "alice" "pw123" in
  let u2 := mkUserCreate "bob" "other" in
  username u1 <> username u2
  /\ (register (register db_bob "s1" u1).2 "s2" u2).1 = (register db_bob "s2" u2).1
  /\ (register (register db_bob "s2" u2).2 "s1" u1).1 = (register db_bob "s1" u1).1
  /\ (register (register db_bob "s1" u1).2 "s2" u2).2 =
       (register (register db_bob "s2" u2).2 "s1" u1).2.
Proof.
  intros u1 u2. split; [discriminate |].
  exact (register_commutes db_bob "s1" "s2" u1 u2 ltac:(discriminate)).
Defined.

Lemma get_current_user_without_subject_witness :
  let token := jwt_encode anonymous_claims SECRET_KEY ALGORITHM in
  jwt_decode token SECRET_KEY [ALGORITHM] 1000 = inr anonymous_claims
  /\ (forall sub, anonymous_claims !! "sub" <> Some (CStr sub))
  /\ get_current_user db_bob token 1000 = Raise (HTTPExc credentials_exception).
Proof.
  intros token.
  assert (jwt_decode token SECRET_KEY [ALGORITHM] 1000 = inr anonymous_claims) as Hdec.
  { apply (reference_jwt_round_trip anonymous_claims SECRET_KEY 2800 1000).
    reflexivity. }
  assert (forall sub, anonymous_claims !! "sub" <> Some (CStr sub)) as Hsub.
  { intros sub. vm_compute. discriminate. }
  split; [exact Hdec |]. split; [exact Hsub |].
  exact (get_current_user_without_subject db_bob token 1000 anonymous_claims Hdec Hsub).
Defined.

Lemma token_lifetime_witness :
  jwt_expiry /\ 600 <> 0 /\ db_bob !! "bob" = Some bob
  /\ let token := create_access_token {["sub" := CStr "bob"]} (Some 600) 1000 in
     (1599 < 1000 + 600 -> get_current_user db_bob token 1599 = Return bob)
     /\ (1000 + 600 < 1601 ->
           get_current_user db_bob token 1601 = Raise (HTTPExc credentials_exception)).
Proof.
  split; [exact reference_jwt_expiry |].
  split; [discriminate |]. split; [reflexivity |].
  intros token. split.
  - exact (proj1 (token_lifetime db_bob "bob" bob 600 1000 1599
                    reference_jwt_expiry ltac:(discriminate) eq_refl)).
  - exact (proj2 (token_lifetime db_bob "bob" bob 600 1000 1601
                    reference_jwt_expiry ltac:(discriminate) eq_refl)).
Defined.

Lemma login_token_lifetime_witness :
  let tok := create_access_token {["sub" := CStr "bob"]} None 1000 in
  jwt_expiry /\ store_consistent db_bob
  /\ login db_bob "bob" "pw123" 1000 = Return (mkToken tok "bearer")
  /\ exists r, db_bob !! "bob" = Some r
       /\ user_username r = "bob"
       /\ (2000 < 1000 + 1800 -> get_current_user db_bob tok 2000 = Return r)
       /\ (1000 + 1800 < 2000 ->
             get_current_user db_bob tok 2000 = Raise (HTTPExc credentials_exception)).
Proof.
  intros tok.
  split; [exact reference_jwt_expiry |].
  split; [exact db_bob_consistent |]. split; [reflexivity |].
  exact (login_token_lifetime db_bob "bob" "pw123" 1000 tok 2000
           reference_jwt_expiry db_bob_consistent eq_refl).
Defined.

Lemma issued_token_claims_witness :
  jwt_expiry
  /\ 1500 < expiry_of (Some 600) 1000
  /\ let issued : claims :=
       <["exp" := CNum (expiry_of (Some 600) 1000)]> {["sub" := CStr "bob"]} in
     jwt_decode (create_access_token {["sub" := CStr "bob"]} (Some 600) 1000)
       SECRET_KEY [ALGORITHM] 1500 = inr issued
     /\ jwt_decode
          (create_access_token (<["exp" := CNum 1]> {["sub" := CStr "bob"]})
             (Some 600) 1000)
          SECRET_KEY [ALGORITHM] 1500 = inr issued.
Proof.
  split; [exact reference_jwt_expiry |]. split; [reflexivity |].
  exact (issued_token_claims "bob" (CNum 1) (Some 600) 1000 1500
           reference_jwt_expiry eq_refl).
Defined.

Lemma register_twice_witness :
  Z.of_nat (py_len (password (mkUserCreate "alice" "pw123"))) <= MAX_PASSWORD_SIZE
  /\ let db1 := (register db_bob "s1" (mkUserCreate "alice" "pw123")).2 in
     db1 !! "alice" = Some (mkUser "alice" (pwd_context_hash "s1" "pw123"))
     /\ register db1 "s2" (mkUserCreate "alice" "again") =
          (Raise (HTTPExc username_taken), db1).
Proof.
  split; [vm_compute; discriminate |]. intros db1. split; [reflexivity |].
  exact (register_twice db_bob "s1" "s2" (mkUserCreate "alice" "pw123") "again"
           ltac:(vm_compute; discriminate)).
Defined.

(** *** Files *)

Lemma upload_file_keeps_upload_dir_witness :
  upload_dir_ok module_dir fs0 upload_dir_path
  /\ upload_dir_ok module_dir
       (upload_file module_dir fs0 (mkUploadFile "x/../bob_notes.txt" hi) alice).2
       upload_dir_path
  /\ upload_dir_ok module_dir (upload_file module_dir fs0 report alice).2
       upload_dir_path.
Proof.
  split; [exact reference_upload_dir_ok |]. split.
  - exact (upload_file_keeps_upload_dir module_dir fs0 upload_dir_path
             (mkUploadFile "x/../bob_notes.txt" hi) alice reference_upload_dir_ok).
  - exact (upload_file_keeps_upload_dir module_dir fs0 upload_dir_path
             report alice reference_upload_dir_ok).
Defined.

Lemma list_files_exact_witness :
  upload_dir_ok module_dir fs1 upload_dir_path
  /\ exists l,
       list_files module_dir fs1 alice = Return l
       /\ forall name size_,
            mkFileEntry name size_ ∈ l <->
            exists data,
              fs1 !! (upload_dir_path ++ [user_username alice +:+ "_" +:+ name])
                = Some (IFile data)
              /\ size_ = Z.of_nat (length data).
Proof.
  split; [exact fs1_upload_dir_ok |].
  exact (list_files_exact module_dir fs1 upload_dir_path alice fs1_upload_dir_ok).
Defined.

Lemma list_files_no_duplicates_witness :
  upload_dir_ok module_dir fs1 upload_dir_path
  /\ list_files module_dir fs1 alice = Return [mkFileEntry "report.txt" 2]
  /\ NoDup [mkFileEntry "report.txt" 2].
Proof.
  split; [exact fs1_upload_dir_ok |]. split; [reflexivity |].
  exact (list_files_no_duplicates module_dir fs1 upload_dir_path alice
           [mkFileEntry "report.txt" 2] fs1_upload_dir_ok eq_refl).
Defined.

Lemma upload_then_list_witness :
  upload_dir_ok module_dir fs1 upload_dir_path
  /\ str_mem "/" (user_username alice) = false
  /\ str_mem "/" (filename report2) = false
  /\ name_fits module_dir (user_username alice) (filename report2) = true
  /\ let r := upload_file module_dir fs1 report2 alice in
     r.1 = Return (mkUploadInfo ("File '" +:+ filename report2 +:+ "' saved.")
                     (user_username alice))
     /\ exists l l',
          list_files module_dir fs1 alice = Return l
          /\ list_files module_dir r.2 alice = Return l'
          /\ forall e,
               e ∈ l' <->
               e = mkFileEntry (filename report2) (Z.of_nat (length (file report2)))
               \/ (e ∈ l /\ entry_name e <> filename report2).
Proof.
  split; [exact fs1_upload_dir_ok |].
  split; [reflexivity |]. split; [reflexivity |]. split; [reflexivity |].
  exact (upload_then_list module_dir fs1 upload_dir_path report2 alice
           fs1_upload_dir_ok eq_refl eq_refl eq_refl).
Defined.

Lemma upload_confined_witness :
  let k := upload_dir_path ++ ["alice_report.txt"] in
  upload_dir_ok module_dir fs0 upload_dir_path
  /\ str_mem "/" (user_username alice) = false
  /\ (upload_file module_dir fs0 report alice).2 !! k <> fs0 !! k
  /\ k = upload_dir_path ++ [user_username alice +:+ "_" +:+ filename report]
  /\ str_mem "/" (filename report) = false.
Proof.
  intros k.
  assert ((upload_file module_dir fs0 report alice).2 !! k <> fs0 !! k) as Hk.
  { vm_compute. discriminate. }
  split; [exact reference_upload_dir_ok |]. split; [reflexivity |].
  split; [exact Hk |].
  exact (upload_confined module_dir fs0 upload_dir_path report alice k
           reference_upload_dir_ok eq_refl Hk).
Defined.

Lemma upload_twice_overwrites_witness :
  upload_dir_ok module_dir fs0 upload_dir_path
  /\ str_mem "/" (user_username alice) = false
  /\ str_mem "/" (filename report) = false
  /\ filename report2 = filename report
  /\ upload_file module_dir (upload_file module_dir fs0 report alice).2 report2 alice =
       upload_file module_dir fs0 report2 alice.
Proof.
  split; [exact reference_upload_dir_ok |].
  split; [reflexivity |]. split; [reflexivity |]. split; [reflexivity |].
  exact (upload_twice_overwrites module_dir fs0 upload_dir_path report report2 alice
           reference_upload_dir_ok eq_refl eq_refl eq_refl).
Defined.

Lemma upload_leaves_other_listing_witness :
  upload_dir_ok module_dir fs1 upload_dir_path
  /\ str_mem "/" (user_username bob) = false
  /\ str_mem "_" (user_username bob) = false
  /\ str_mem "_" (user_username alice) = false
  /\ user_username alice <> user_username bob
  /\ let fs' := (upload_file module_dir fs1 report2 bob).2 in
     exists l l',
       list_files module_dir fs1 alice = Return l
       /\ list_files module_dir fs' alice = Return l'
       /\ forall e, e ∈ l' <-> e ∈ l.
Proof.
  split; [exact fs1_upload_dir_ok |].
  split; [reflexivity |]. split; [reflexivity |]. split; [reflexivity |].
  split; [discriminate |].
  exact (upload_leaves_other_listing module_dir fs1 upload_dir_path report2 bob alice
           fs1_upload_dir_ok eq_refl eq_refl eq_refl ltac:(discriminate)).
Defined.

Lemma file_location_injective_witness :
  str_startswith "/" "alice" = false
  /\ str_mem "_" "alice" = false
  /\ file_location module_dir "alice" "report.txt" =
       file_location module_dir "alice" "report.txt"
  /\ "alice" = "alice" /\ "report.txt" = "report.txt".
Proof.
  split; [reflexivity |]. split; [reflexivity |]. split; [reflexivity |].
  exact (file_location_injective module_dir "alice" "alice" "report.txt" "report.txt"
           eq_refl eq_refl eq_refl eq_refl eq_refl).
Defined.

Lemma upload_dir_missing_witness :
  fs_stat (∅ : filesystem) (UPLOAD_DIR module_dir) = None
  /\ list_files module_dir ∅ alice = Return []
  /\ (str_startswith "/" (user_username alice) = false ->
      upload_file module_dir ∅ report alice = (Raise OSError, ∅))
  /\ (str_startswith "/" (user_username alice) = false ->
      upload_file module_dir ∅ (mkUploadFile nul_name hi) alice =
        (Raise ValueError, ∅)).
Proof.
  split; [reflexivity |].
  split; [exact (proj1 (upload_dir_missing module_dir ∅ report alice eq_refl)) |].
  split.
  - exact (proj2 (upload_dir_missing module_dir ∅ report alice eq_refl)).
  - exact (proj2 (upload_dir_missing module_dir ∅ (mkUploadFile nul_name hi) alice
                    eq_refl)).
Defined.

(** *** Routes *)

Lemma routes_refuse_unauthenticated_witness :
  (forall r, get_current_user db_bob "not-a-token" 1000 <> Return r)
  /\ upload_file_route module_dir db_bob fs0 "not-a-token" 1000 report =
       (Raise (HTTPExc credentials_exception), fs0)
  /\ list_files_route module_dir db_bob fs0 "not-a-token" 1000 =
       Raise (HTTPExc credentials_exception).
Proof.
  assert (forall r, get_current_user db_bob "not-a-token" 1000 <> Return r) as Hno.
  { intros r. vm_compute. discriminate. }
  split; [exact Hno |].
  exact (routes_refuse_unauthenticated module_dir db_bob fs0 "not-a-token" 1000
           report Hno).
Defined.

Lemma register_login_upload_list_witness :
  hash_verifies /\ jwt_expiry
  /\ (∅ : users_db) !! username (mkUserCreate "testuser" "secret") = None
  /\ Z.of_nat (py_len (password (mkUserCreate "testuser" "secret")))
       <= MAX_PASSWORD_SIZE
  /\ str_mem "/" (username (mkUserCreate "testuser" "secret")) = false
  /\ str_mem "/" (filename (mkUploadFile "hello.txt" hi)) = false
  /\ name_fits module_dir (username (mkUserCreate "testuser" "secret"))
       (filename (mkUploadFile "hello.txt" hi)) = true
  /\ upload_dir_ok module_dir fs0 upload_dir_path
  /\ 1060 < 1000 + 1800 /\ 1120 < 1000 + 1800
  /\ let db' := (register ∅ "s4lt" (mkUserCreate "testuser" "secret")).2 in
     exists tok,
       login db' "testuser" "secret" 1000 = Return (mkToken tok "bearer")
       /\ let r := upload_file_route module_dir db' fs0 tok 1060
                     (mkUploadFile "hello.txt" hi) in
          r.1 = Return (mkUploadInfo "File 'hello.txt' saved." "testuser")
          /\ exists l,
               list_files_route module_dir db' r.2 tok 1120 = Return l
               /\ mkFileEntry "hello.txt" 2 ∈ l.
Proof.
  split; [exact reference_hash_verifies |].
  split; [exact reference_jwt_expiry |].
  split; [reflexivity |]. split; [vm_compute; discriminate |].
  split; [reflexivity |]. split; [reflexivity |]. split; [reflexivity |].
  split; [exact reference_upload_dir_ok |].
  split; [reflexivity |]. split; [reflexivity |].
  exact (register_login_upload_list module_dir ∅ fs0 upload_dir_path "s4lt"
           (mkUserCreate "testuser" "secret") 1000 1060 1120
           (mkUploadFile "hello.txt" hi)
           reference_hash_verifies reference_jwt_expiry eq_refl
           ltac:(vm_compute; discriminate) eq_refl eq_refl eq_refl
           reference_upload_dir_ok eq_refl eq_refl).
Defined.

End ExtraScenarios.
